(** * serverless-plugin-parent: parent discovery and configuration merge

    A shallow embedding of [src/index.js] (class [ServerlessPluginParent])
    together with the two library functions its behaviour rests on:
    lodash's [_.merge] and Node's POSIX [path.join].

    Layout:
    - [JS]      the JavaScript values a configuration document is made of;
    - [Lodash]  [_.merge] ([baseMerge] / [baseMergeDeep] / [assignMergeValue]);
    - [NodePath] [path.join] and [path.normalize] (POSIX flavour);
    - the plugin's three methods, over an explicit file-system oracle;
    - the properties of the plugin.

    Modelling boundaries.  Documents are finite trees (the sharing that YAML
    anchors introduce is not represented) and their sequences are dense, as
    the loader produces them (the holes of a sparse array, which lodash
    visits as [undefined], are not represented).  Numbers are integers; the
    loader's floating-point numbers are outside the model.  Property names
    inherited from [Object.prototype] / [Array.prototype] are not
    represented, and lodash's special treatment of a mapping that carries a
    numeric [length] member (its "array-like" test) is not modelled: such a
    mapping is treated like any other mapping, as is a key named [length] or
    [__proto__] anywhere ([loadedDocument] marks the documents free of these).
    Paths are POSIX paths.  The file system is a snapshot: it answers every
    query and does not change during a call. *)

From Stdlib Require Import ZArith Lia Ascii.
From stdpp Require Import gmap strings list fin_maps pretty.

Set Warnings "-register-all,-clear-no-such-hyp".

(** ** JavaScript values *)

Module JS.

(** A JavaScript value.  An object is a finite map from property names to
    values; [isArr] records [Array.isArray].  The elements of an array are
    the properties named by the decimal form of their index, as in
    JavaScript itself ([a[1]] is [a["1"]]). *)
Inductive value : Type :=
| VUndef
| VNull
| VBool (b : bool)
| VNum (n : Z)
| VStr (s : string)
| VObj (isArr : bool) (props : gmap string value).

(** A plain object [{k1: v1, ...}] and an array [[v0, v1, ...]]. *)
Definition obj (l : list (string * value)) : value :=
  VObj false (list_to_map l).

Definition arr_props (l : list value) : gmap string value :=
  list_to_map (imap (λ (i : nat) v, (pretty i, v)) l).

Definition arr (l : list value) : value := VObj true (arr_props l).

(** ToBoolean. *)
Definition truthy (v : value) : bool :=
  match v with
  | VUndef | VNull => false
  | VBool b => b
  | VNum n => negb (Z.eqb n 0)
  | VStr s => negb (String.eqb s "")
  | VObj _ _ => true
  end.

(** Property read of an object given by its properties: an absent property
    reads [undefined]. *)
Definition field (m : gmap string value) (k : string) : value :=
  default VUndef (m !! k).

(** Property read [v.k] on a value that is neither [undefined] nor [null]:
    a primitive has none of the properties the plugin reads. *)
Definition member (v : value) (k : string) : value :=
  match v with
  | VObj _ m => field m k
  | _ => VUndef
  end.

(** Property read [v.k] in general: on [undefined] or [null] it throws a
    TypeError ([None]). *)
Definition getProp (v : value) (k : string) : option value :=
  match v with
  | VUndef | VNull => None
  | _ => Some (member v k)
  end.

(** [a || b], with [b] already evaluated. *)
Definition js_or (a b : value) : value := if truthy a then a else b.

(** Nesting depth, the measure behind the induction principle. *)
Fixpoint depth (v : value) : nat :=
  match v with
  | VObj _ m => S (map_fold (λ _ v' acc, Nat.max (depth v') acc) 0%nat m)
  | _ => 0%nat
  end.

End JS.
Export JS.

(** ** lodash: [_.merge] *)

Module Lodash.

(** One step of [baseMerge]'s loop body, for the source property [srcValue]
    and the destination's current [objValue] under the same key ([None] when
    the destination has no such key).  The result is what the destination
    holds under the key afterwards.

    - a source that is not an object goes through [assignMergeValue]: it is
      assigned, except that [undefined] never replaces an existing key;
    - a source array ([baseMergeDeep], [isArr]) is merged into the
      destination's array when there is one, and into a fresh [[]] otherwise;
    - a source plain object is merged into the destination's value when that
      is an object of either kind, and into a fresh [{}] otherwise.

    The recursive call of [mergeFunc] goes through every key of the source
    ([baseFor] over [keysIn]); keys the source lacks are left alone.

    Scope.  This is lodash on the documents that [loadedDocument] admits.
    Three things lodash does with other documents are left out: a source key
    named [length] that meets an array is assigned as the array's length
    (which truncates the array, or throws a RangeError); a destination
    mapping with a numeric [length] that meets a source array is copied as an
    array first; a source key named [__proto__] that holds a mapping is
    skipped.  A property that these would change is stated for
    [loadedDocument] documents. *)
Fixpoint mergeValue (srcValue : value) (objValue : option value)
    {struct srcValue} : value :=
  match srcValue with
  | VObj srcIsArr srcProps =>
      let mergeInto (newValue : gmap string value) : gmap string value :=
        merge (λ s o, match s with
                      | Some sv => Some (mergeValue sv o)
                      | None => o
                      end) srcProps newValue in
      if srcIsArr then
        match objValue with
        | Some (VObj true objProps) => VObj true (mergeInto objProps)
        | _ => VObj true (mergeInto ∅)
        end
      else
        match objValue with
        | Some (VObj objIsArr objProps) => VObj objIsArr (mergeInto objProps)
        | _ => VObj false (mergeInto ∅)
        end
  | VUndef =>
      match objValue with
      | Some o => o
      | None => VUndef
      end
  | _ => srcValue
  end.

(** [baseMerge(object, source)] on the properties of two objects. *)
Definition baseMerge (object source : gmap string value) : gmap string value :=
  merge (λ s o, match s with
                | Some sv => Some (mergeValue sv o)
                | None => o
                end) source object.

(** The own enumerable properties [keysIn] finds on a primitive string: one
    per character, named by its index. *)
Fixpoint string_chars (s : string) : list value :=
  match s with
  | EmptyString => []
  | String c s' => VStr (String c EmptyString) :: string_chars s'
  end.

(** [_.merge(object, source)] for a destination object given by its
    properties.  [createAssigner] skips a falsy source; a number or a boolean
    has no keys to merge. *)
Definition merge (object : gmap string value) (source : value)
    : gmap string value :=
  if truthy source then
    match source with
    | VObj _ srcProps => baseMerge object srcProps
    | VStr s => baseMerge object (arr_props (string_chars s))
    | _ => object
    end
  else object.

End Lodash.

(** ** Node: [path.join] (POSIX) *)

Module NodePath.

(** Split at every ["/"]; a string always yields at least one segment. *)
Fixpoint split (s : string) : list string :=
  match s with
  | EmptyString => [""]
  | String c s' =>
      if Ascii.eqb c "/"%char then "" :: split s'
      else
        match split s' with
        | seg :: segs => String c seg :: segs
        | [] => [String c ""]
        end
  end.

(** [normalizeString]: the segments kept so far are held in reverse.  Empty
    segments and ["."] are dropped; [".."] removes the segment before it,
    unless there is none or it is itself [".."], in which case it is kept
    when [allowAboveRoot]. *)
Fixpoint normalizeSegments (allowAboveRoot : bool) (res : list string)
    (segs : list string) : list string :=
  match segs with
  | [] => rev res
  | seg :: segs' =>
      if String.eqb seg "" || String.eqb seg "." then
        normalizeSegments allowAboveRoot res segs'
      else if String.eqb seg ".." then
        match res with
        | last :: res' =>
            if String.eqb last ".." then
              normalizeSegments allowAboveRoot
                (if allowAboveRoot then ".." :: res else res) segs'
            else normalizeSegments allowAboveRoot res' segs'
        | [] =>
            normalizeSegments allowAboveRoot
              (if allowAboveRoot then [".."] else []) segs'
        end
      else normalizeSegments allowAboveRoot (seg :: res) segs'
  end.

Fixpoint joinSegments (segs : list string) : string :=
  match segs with
  | [] => ""
  | [seg] => seg
  | seg :: segs' => seg +:+ "/" +:+ joinSegments segs'
  end.

Definition startsWithSlash (p : string) : bool :=
  match p with
  | String c _ => Ascii.eqb c "/"%char
  | EmptyString => false
  end.

Fixpoint endsWithSlash (p : string) : bool :=
  match p with
  | EmptyString => false
  | String c EmptyString => Ascii.eqb c "/"%char
  | String _ p' => endsWithSlash p'
  end.

(** [path.normalize]. *)
Definition normalize (p : string) : string :=
  if String.eqb p "" then "."
  else
    let isAbsolute := startsWithSlash p in
    let trailingSeparator := endsWithSlash p in
    let body := joinSegments (normalizeSegments (negb isAbsolute) [] (split p)) in
    if String.eqb body "" then
      if isAbsolute then "/" else if trailingSeparator then "./" else "."
    else
      let body' := if trailingSeparator then body +:+ "/" else body in
      if isAbsolute then "/" +:+ body' else body'.

(** [path.join(a, b)]: the non-empty arguments, joined by ["/"] and
    normalized. *)
Definition join (a b : string) : string :=
  match String.eqb a "", String.eqb b "" with
  | true, true => "."
  | true, false => normalize b
  | false, true => normalize a
  | false, false => normalize (a +:+ "/" +:+ b)
  end.

End NodePath.

(** ** The plugin: [ServerlessPluginParent] *)

(** What a call can throw. *)
Inductive error : Type :=
| DiscoveryError   (* Error("Could not discover parent serverless.yml") *)
| LoadError        (* serverless.utils.readFileSync threw *)
| TypeError.       (* a JavaScript TypeError *)

Inductive result (A : Type) : Type :=
| Ok (a : A)
| Throw (e : error).
Arguments Ok {A} a.
Arguments Throw {A} e.

(** The calls the plugin makes on its collaborators, in order. *)
Inductive event : Type :=
| ExistsSync (p : string)
| RealpathSync (p : string)
| ReadFileSync (p : value)
| PopulateService
| CliLog (msg : string).

(** The collaborators: [fs], [os], [serverless.utils], [serverless.variables],
    [YAML], and the part of JavaScript's ToNumber (on strings and objects)
    that the value model leaves open ([None] is NaN).  [realpathSync] is
    asked about the ancestors of the working directory only and is taken to
    answer: a run in which it throws (a directory that cannot be read) is not
    a run of this model. *)
Record Host : Type := {
  existsSync : string → bool;
  realpathSync : string → string;
  homedir : string;
  readFileSync : value → option value;   (* [None]: the loader throws *)
  hasPopulateService : bool;
  yamlDump : list (string * value) → string;
  toNumberOther : value → option Z
}.

(** [service.custom && service.custom.parent && service.custom.parent[k]]:
    each property is read only from a truthy value, so nothing throws. *)
Definition parentOption (service : gmap string value) (k : string) : value :=
  let custom := field service "custom" in
  if truthy custom then
    let parent := member custom "parent" in
    if truthy parent then member parent k else parent
  else custom.

Definition isStr (v : value) (s : string) : bool :=
  match v with
  | VStr s' => String.eqb s' s
  | _ => false
  end.

(** Array indices among property names: the canonical decimal form of an
    integer below [2^32 - 1]. *)
Definition digit (c : ascii) : option N :=
  let n := N_of_ascii c in
  if ((48 <=? n) && (n <=? 57))%N then Some (n - 48)%N else None.

Fixpoint digitsValue (acc : N) (s : string) : option N :=
  match s with
  | EmptyString => Some acc
  | String c s' =>
      match digit c with
      | Some d => digitsValue (10 * acc + d)%N s'
      | None => None
      end
  end.

Definition isArrayIndex (k : string) : bool :=
  match digitsValue 0%N k with
  | Some n => String.eqb (pretty n) k && (n <? 2 ^ 32 - 1)%N
  | None => false
  end.

(** [p.indexOf(".yml") < 0], for the value [p] of [custom.parent.path]:
    [String.prototype.indexOf] finds a substring, [Array.prototype.indexOf]
    an element; on anything else [indexOf] is not a function ([None]). *)
Definition indexOfYmlNegative (p : value) : option bool :=
  match p with
  | VStr s =>
      Some (match String.index 0 ".yml" s with Some _ => false | None => true end)
  | VObj true m =>
      match m !! "indexOf" with
      | Some _ => None
      | None =>
          Some (negb (map_fold (λ k v found,
                        found || (isArrayIndex k && isStr v ".yml")) false m))
      end
  | _ => None
  end.

(** Lines 145-154: the explicit path.  [path.join] accepts strings only. *)
Definition explicitPath (p : value) : result value :=
  match indexOfYmlNegative p with
  | None => Throw TypeError
  | Some true =>
      match p with
      | VStr s => Ok (VStr (NodePath.join s "serverless.yml"))
      | _ => Throw TypeError
      end
  | Some false => Ok p
  end.

(** ToNumber. *)
Definition toNumber (H : Host) (v : value) : option Z :=
  match v with
  | VUndef => None
  | VNull => Some 0%Z
  | VBool b => Some (if b then 1 else 0)%Z
  | VNum n => Some n
  | _ => toNumberOther H v
  end.

(** [(maxLevelsToSearch - 1) * 3]. *)
Definition searchLimit (H : Host) (maxLevelsToSearch : value) : option Z :=
  (λ n, (n - 1) * 3)%Z <$> toNumber H maxLevelsToSearch.

(** [relativePath.length < limit]; a comparison with NaN is false. *)
Definition lengthBelow (relativePath : string) (limit : option Z) : bool :=
  match limit with
  | Some b => (Z.of_nat (String.length relativePath) <? b)%Z
  | None => false
  end.

(** Lines 164-170: the [while] loop, from [relativePath].  It returns the
    value of [relativePath] at exit and the calls made on [fs]; [None] when
    [fuel] iterations were not enough to leave the loop. *)
Fixpoint climb (H : Host) (fuel : nat) (limit : option Z)
    (relativePath : string) : option (string * list event) :=
  match fuel with
  | O => None
  | S fuel' =>
      let file := NodePath.join relativePath "serverless.yml" in
      if existsSync H file then Some (relativePath, [ExistsSync file])
      else if String.eqb (realpathSync H relativePath) (homedir H) then
        Some (relativePath, [ExistsSync file; RealpathSync relativePath])
      else if lengthBelow relativePath limit then
        match climb H fuel' limit (NodePath.join relativePath "..") with
        | Some (r, t) =>
            Some (r, ExistsSync file :: RealpathSync relativePath :: t)
        | None => None
        end
      else Some (relativePath, [ExistsSync file; RealpathSync relativePath])
  end.

(** Iterations granted to the loop: the limit itself bounds them, since every
    iteration makes [relativePath] longer. *)
Definition climbFuel (limit : option Z) : nat :=
  S (Z.to_nat (default 0%Z limit)).

(** Lines 156-160: [(custom && custom.parent && custom.parent.maxLevels) || 3]. *)
Definition maxLevelsToSearch (service : gmap string value) : value :=
  js_or (parentOption service "maxLevels") (VNum 3).

(** [getParentConfigurationRelativePath()]: the path of the parent document
    (or what was thrown) and the calls made on [fs]. *)
Definition getParentConfigurationRelativePath (H : Host)
    (service : gmap string value) : option (result value * list event) :=
  let path := parentOption service "path" in
  if truthy path then Some (explicitPath path, [])
  else
    let limit := searchLimit H (maxLevelsToSearch service) in
    match climb H (climbFuel limit) limit ".." with
    | None => None
    | Some (relativePath, t) =>
        let file := NodePath.join relativePath "serverless.yml" in
        if existsSync H file then Some (Ok (VStr file), t ++ [ExistsSync file])
        else Some (Throw DiscoveryError, t ++ [ExistsSync file])
    end.

Definition isUndefined (v : value) : bool :=
  match v with VUndef => true | _ => false end.

Definition isFalse (v : value) : bool :=
  match v with VBool false => true | _ => false end.

(** Lines 111-118: the direction flag, read from [service].  [None] is the
    TypeError of reading a property of [null]. *)
Definition readOverwriteServiceConfig (service : gmap string value)
    : option bool :=
  let custom := field service "custom" in
  if isUndefined custom then Some true
  else
    parent ← getProp custom "parent";
    if isUndefined parent then Some true
    else
      flag ← getProp parent "overwriteServiceConfig";
      Some (negb (isFalse flag)).

(** Lines 106-126: the merge proper, for a loaded [parentConfiguration].
    It returns the outcome and the service document it leaves behind. *)
Definition mergeConfigurations (service : gmap string value)
    (parentConfiguration : value) : result unit * gmap string value :=
  (* save old config for later use *)
  let userServiceConfig := Lodash.merge ∅ (VObj false service) in
  let service := Lodash.merge service parentConfiguration in
  match readOverwriteServiceConfig service with
  | None => (Throw TypeError, service)
  | Some overwriteServiceConfig =>
      (* overwrites service config with parent config *)
      let service := Lodash.merge service parentConfiguration in
      if overwriteServiceConfig then (Ok tt, service)
      else
        (* overwrites config again with old service file *)
        (Ok tt, Lodash.merge service (VObj false userServiceConfig))
  end.

Record outcome : Type := {
  outResult : result unit;
  outService : gmap string value;
  outTrace : list event
}.

(** [mergeParentConfigurationIntoService()]. *)
Definition mergeParentConfigurationIntoService (H : Host)
    (service : gmap string value) : option outcome :=
  match getParentConfigurationRelativePath H service with
  | None => None
  | Some (Throw e, t) =>
      Some {| outResult := Throw e; outService := service; outTrace := t |}
  | Some (Ok parentConfigurationFilename, t) =>
      let t := t ++ [ReadFileSync parentConfigurationFilename] in
      match readFileSync H parentConfigurationFilename with
      | None =>
          Some {| outResult := Throw LoadError; outService := service;
                  outTrace := t |}
      | Some parentConfiguration =>
          match mergeConfigurations service parentConfiguration with
          | (Throw e, service') =>
              Some {| outResult := Throw e; outService := service';
                      outTrace := t |}
          | (Ok _, service') =>
              Some {| outResult := Ok tt; outService := service';
                      outTrace :=
                        t ++ (if hasPopulateService H then [PopulateService]
                              else []) |}
          end
      end
  end.

(** [Object.keys(v).length] for a truthy [v]. *)
Definition objectKeysLength (v : value) : nat :=
  match v with
  | VObj _ m => size m
  | VStr s => String.length s
  | _ => 0%nat
  end.

Definition fieldsToOutput : list string :=
  ["custom"; "functions"; "package"; "provider"; "resources"; "service"].

(** Lines 80-88: the object handed to [YAML.dump], in insertion order. *)
Definition effectiveServiceConfig (service : gmap string value)
    : list (string * value) :=
  omap (λ fieldName,
    let fieldValue := field service fieldName in
    if truthy fieldValue && (0 <? objectKeysLength fieldValue)
    then Some (fieldName, fieldValue) else None) fieldsToOutput.

Definition newline : string := String (ascii_of_nat 10) EmptyString.

(** [printEffectiveConfig()]. *)
Definition printEffectiveConfig (H : Host) (service : gmap string value)
    : list event :=
  [CliLog ("Effective serverless.yml:" +:+ newline
           +:+ yamlDump H (effectiveServiceConfig service))].

(** ** Vocabulary of the properties *)

(** The [k]-th ancestor directory as the loop spells it: ["."], [".."],
    ["../.."], ... *)
Fixpoint ancestorDir (k : nat) : string :=
  match k with
  | O => "."
  | S O => ".."
  | S k' => "../" +:+ ancestorDir k'
  end.

(** The two probes the loop makes of a directory. *)
Definition probesOf (d : string) : list event :=
  [ExistsSync (NodePath.join d "serverless.yml"); RealpathSync d].

(** What [_.merge] leaves of two arrays: position by position the winner's
    element merged over the loser's, then the loser's surplus. *)
Definition mergeElements (winner loser : list value) : list value :=
  imap (λ i w, Lodash.mergeValue w (loser !! i)) winner
  ++ drop (length winner) loser.

(** The scalars of a document. *)
Definition isScalar (v : value) : bool :=
  match v with
  | VNull | VBool _ | VNum _ | VStr _ => true
  | VUndef | VObj _ _ => false
  end.

(** The value under a path of keys; positions of a sequence are keys. *)
Fixpoint lookupPath (m : gmap string value) (path : list string)
    : option value :=
  match path with
  | [] => None
  | [k] => m !! k
  | k :: rest =>
      match m !! k with
      | Some (VObj _ m') => lookupPath m' rest
      | _ => None
      end
  end.

(** A document as the loader yields it and on which the model of [_.merge]
    is lodash itself: no [undefined]; sequences dense, with nothing but their
    elements; no mapping with a key named [length] or [__proto__] (lodash
    assigns the one as an array's length and skips the other). *)
Definition keyAllowed (isArr : bool) (k : string) : bool :=
  isArr || (negb (String.eqb k "length") && negb (String.eqb k "__proto__")).

Definition dense (m : gmap string value) : bool :=
  forallb (λ i : nat, bool_decide (is_Some (m !! pretty i))) (seq 0 (size m)).

Fixpoint loadedDocument (v : value) : bool :=
  match v with
  | VUndef => false
  | VNull | VBool _ | VNum _ | VStr _ => true
  | VObj isArr m =>
      map_fold (λ k v' ok, ok && keyAllowed isArr k && loadedDocument v') true m
      && (if isArr then dense m else true)
  end.

(** A section that has something to print: a mapping or a sequence with an
    entry, or a non-empty string. *)
Definition hasEntries (v : value) : Prop :=
  match v with
  | VObj _ m => m ≠ ∅
  | VStr s => s ≠ ""
  | _ => False
  end.

Definition endsWith (s suffix : string) : bool :=
  (String.length suffix <=? String.length s)%nat
  && String.eqb
       (String.substring (String.length s - String.length suffix)
          (String.length suffix) s) suffix.


(** The explicit path as the specification words it: the file name is
    appended unless the path ends with [".yml"]. *)
Definition explicitPath_endsWith (p : string) : string :=
  if endsWith p ".yml" then p else NodePath.join p "serverless.yml".

(** ** Sample documents and hosts *)

(** A child document whose only content is [custom.parent]. *)
Definition withParentOptions (options : list (string * value))
    : gmap string value :=
  list_to_map [("custom", obj [("parent", obj options)])].

Definition child_stage_dev : gmap string value :=
  list_to_map [("provider", obj [("stage", VStr "dev")])].


Definition child_seq : gmap string value :=
  list_to_map [("a", arr [VNum 1; VNum 2; VNum 3])].

Definition parent_seq : gmap string value :=
  list_to_map [("a", arr [VNum 9])].

Definition child_keeps_seq : gmap string value :=
  list_to_map
    [("a", arr [VNum 1]);
     ("custom", obj [("parent", obj [("overwriteServiceConfig", VBool false)])])].

Definition parent_long_seq : value :=
  obj [("a", arr [VNum 7; VNum 8; VNum 9])].

(** A file system without symbolic links and without any [serverless.yml],
    seen from the working directory [cwd]. *)
Definition host_without_parent (cwd home : string) : Host := {|
  existsSync := λ _, false;
  realpathSync := λ p, NodePath.normalize (cwd +:+ "/" +:+ p);
  homedir := home;
  readFileSync := λ _, None;
  hasPopulateService := true;
  yamlDump := λ _, "";
  toNumberOther := λ _, None
|}.

Definition host_deep_tree : Host :=
  host_without_parent
    "/srv/l1/l2/l3/l4/l5/l6/l7/l8/l9/l10/l11/l12/l13/svc" "/home/u".

Definition host_service_below_home : Host :=
  host_without_parent "/home/u/svc" "/home/u".

(** The same, with a home directory [/home/u] that is a symbolic link to
    [/data/u]; the service lives in [/data/u/svc]. *)
Definition host_symlinked_home : Host := {|
  existsSync := λ _, false;
  realpathSync := λ p,
    if String.eqb p "/home/u" then "/data/u"
    else NodePath.normalize ("/data/u/svc/" +:+ p);
  homedir := "/home/u";
  readFileSync := λ _, None;
  hasPopulateService := true;
  yamlDump := λ _, "";
  toNumberOther := λ _, None
|}.

(** A file system whose only [serverless.yml] is two directories up from
    the service directory [/srv/app/team/svc]; the loader yields
    [parentConfiguration] for it. *)
Definition host_parent_two_up (parentConfiguration : value) : Host := {|
  existsSync := λ p, String.eqb p "../../serverless.yml";
  realpathSync := λ p, NodePath.normalize ("/srv/app/team/svc/" +:+ p);
  homedir := "/home/u";
  readFileSync := λ p,
    if isStr p "../../serverless.yml" then Some parentConfiguration else None;
  hasPopulateService := true;
  yamlDump := λ _, "";
  toNumberOther := λ _, None
|}.

(** A parent document with an empty [custom:] section. *)
Definition parent_null_custom : gmap string value :=
  list_to_map [("provider", obj [("stage", VStr "prod")]); ("custom", VNull)].

Definition parent_provider_prod : gmap string value :=
  list_to_map
    [("provider", obj [("stage", VStr "prod"); ("region", VStr "us-east-1")])].

(** * Facts about the model *)

(** ** Induction on values *)

Lemma depth_lookup (a : bool) (m : gmap string value) k v :
  m !! k = Some v → (depth v < depth (VObj a m))%nat.
Proof.
  simpl. intros Hk. apply Nat.lt_succ_r. revert Hk.
  apply (map_fold_weak_ind
    (λ r (m : gmap string value), m !! k = Some v → (depth v ≤ r)%nat)).
  - by rewrite lookup_empty.
  - intros i x m' r Hi IH. rewrite lookup_insert.
    case_decide as Hik.
    + intros [= ->]. lia.
    + intros Hm. specialize (IH Hm). lia.
Qed.

Lemma value_ind' (P : value → Prop) :
  P VUndef → P VNull → (∀ b, P (VBool b)) → (∀ n, P (VNum n)) →
  (∀ s, P (VStr s)) →
  (∀ a m, map_Forall (λ _ v, P v) m → P (VObj a m)) →
  ∀ v, P v.
Proof.
  intros Hu Hn Hb Hz Hs Ho v.
  remember (depth v) as d eqn:Hd. revert v Hd.
  induction (lt_wf d) as [d _ IH]. intros [] Hd; auto.
  apply Ho. intros k v Hk. eapply IH; [|reflexivity].
  subst d. by eapply depth_lookup.
Qed.

(** ** [_.merge] *)

Lemma lookup_baseMerge object source k :
  Lodash.baseMerge object source !! k =
    match source !! k with
    | Some sv => Some (Lodash.mergeValue sv (object !! k))
    | None => object !! k
    end.
Proof.
  unfold Lodash.baseMerge. rewrite lookup_merge.
  by destruct (source !! k), (object !! k).
Qed.

Lemma mergeValue_obj a m o :
  Lodash.mergeValue (VObj a m) o =
    if a then
      match o with
      | Some (VObj true om) => VObj true (Lodash.baseMerge om m)
      | _ => VObj true (Lodash.baseMerge ∅ m)
      end
    else
      match o with
      | Some (VObj oa om) => VObj oa (Lodash.baseMerge om m)
      | _ => VObj false (Lodash.baseMerge ∅ m)
      end.
Proof. reflexivity. Qed.

(** Whatever the destination holds, merging an object in leaves an object
    whose properties are the source's merged over some base. *)
Lemma mergeValue_shape a m o :
  ∃ a' base, Lodash.mergeValue (VObj a m) o = VObj a' (Lodash.baseMerge base m).
Proof.
  rewrite mergeValue_obj.
  destruct a, o as [[| | | | |[] om]|]; eauto.
Qed.

Lemma merge_obj object a pm :
  Lodash.merge object (VObj a pm) = Lodash.baseMerge object pm.
Proof. reflexivity. Qed.

Lemma mergeValue_idem sv : ∀ o,
  Lodash.mergeValue sv (Some (Lodash.mergeValue sv o)) = Lodash.mergeValue sv o.
Proof.
  induction sv as [| | | | |a m IH] using value_ind'; intros o; try done.
  assert (Hm : ∀ base, Lodash.baseMerge (Lodash.baseMerge base m) m
                       = Lodash.baseMerge base m).
  { intros base. apply map_eq. intros k. rewrite !lookup_baseMerge.
    destruct (m !! k) as [sv|] eqn:Hk; [|done].
    f_equal. by apply (IH k sv). }
  rewrite !mergeValue_obj.
  destruct a, o as [[| | | | |[] om]|]; by rewrite Hm.
Qed.

Lemma baseMerge_idem object source :
  Lodash.baseMerge (Lodash.baseMerge object source) source
  = Lodash.baseMerge object source.
Proof.
  apply map_eq. intros k. rewrite !lookup_baseMerge.
  destruct (source !! k); [|done]. f_equal. apply mergeValue_idem.
Qed.

Lemma merge_idem object source :
  Lodash.merge (Lodash.merge object source) source = Lodash.merge object source.
Proof.
  unfold Lodash.merge. destruct (truthy source); [|done].
  destruct source; try done; apply baseMerge_idem.
Qed.

(** Merging into nothing copies. *)
Lemma mergeValue_None v : Lodash.mergeValue v None = v.
Proof.
  induction v as [| | | | |a m IH] using value_ind'; try done.
  rewrite mergeValue_obj.
  assert (Lodash.baseMerge ∅ m = m) as ->.
  { apply map_eq. intros k. rewrite lookup_baseMerge, lookup_empty.
    destruct (m !! k) as [sv|] eqn:Hk; [|done]. f_equal. by apply (IH k). }
  by destruct a.
Qed.

Lemma merge_copy (service : gmap string value) :
  Lodash.merge ∅ (VObj false service) = service.
Proof.
  rewrite merge_obj. apply map_eq. intros k.
  rewrite lookup_baseMerge, lookup_empty.
  destruct (service !! k) as [sv|]; [|done]. f_equal. apply mergeValue_None.
Qed.

(** *** Arrays *)

Lemma arr_props_keys_NoDup (l : list value) :
  NoDup (imap (λ (i : nat) v, (pretty i, v)) l).*1.
Proof.
  rewrite fmap_imap.
  rewrite (imap_ext _ (λ i _, pretty i)) by done.
  rewrite imap_seq_0. apply NoDup_fmap_2; [apply _|apply NoDup_seq].
Qed.

Lemma arr_props_lookup_Some (l : list value) key v :
  arr_props l !! key = Some v ↔ ∃ i : nat, key = pretty i ∧ l !! i = Some v.
Proof.
  unfold arr_props.
  rewrite <- elem_of_list_to_map by apply arr_props_keys_NoDup.
  rewrite elem_of_lookup_imap. split.
  - intros (i & y & [= -> ->] & Hi). eauto.
  - intros (i & -> & Hi). eauto.
Qed.

Lemma arr_props_lookup (l : list value) (i : nat) :
  arr_props l !! pretty i = l !! i.
Proof.
  apply option_eq. intros v. rewrite arr_props_lookup_Some. split.
  - intros (j & Hj & Hv). by apply (inj pretty) in Hj as ->.
  - eauto.
Qed.

Lemma mergeElements_lookup winner loser (i : nat) :
  mergeElements winner loser !! i =
    match winner !! i with
    | Some w => Some (Lodash.mergeValue w (loser !! i))
    | None => loser !! i
    end.
Proof.
  unfold mergeElements.
  destruct (winner !! i) as [w|] eqn:Hw.
  - rewrite lookup_app_l by (rewrite length_imap; by eapply lookup_lt_Some).
    by rewrite list_lookup_imap, Hw.
  - apply lookup_ge_None in Hw.
    rewrite lookup_app_r by (by rewrite length_imap).
    rewrite length_imap, lookup_drop. f_equal. lia.
Qed.

Lemma baseMerge_arr_props (object source : list value) :
  Lodash.baseMerge (arr_props object) (arr_props source)
  = arr_props (mergeElements source object).
Proof.
  apply map_eq. intros key. rewrite lookup_baseMerge.
  destruct (arr_props source !! key) as [sv|] eqn:Hs.
  - apply arr_props_lookup_Some in Hs as (i & -> & Hi).
    by rewrite !arr_props_lookup, mergeElements_lookup, Hi.
  - destruct (arr_props object !! key) as [ov|] eqn:Ho.
    + apply arr_props_lookup_Some in Ho as (i & -> & Hi).
      rewrite arr_props_lookup in Hs.
      by rewrite arr_props_lookup, mergeElements_lookup, Hs.
    + symmetry. apply eq_None_not_Some. intros [v Hv].
      apply arr_props_lookup_Some in Hv as (i & -> & Hi).
      rewrite arr_props_lookup in Hs, Ho.
      by rewrite mergeElements_lookup, Hs, Ho in Hi.
Qed.

Lemma mergeValue_arr (source object : list value) :
  Lodash.mergeValue (arr source) (Some (arr object))
  = arr (mergeElements source object).
Proof.
  unfold arr. rewrite mergeValue_obj. by rewrite baseMerge_arr_props.
Qed.

Lemma mergeElements_scalars winner loser :
  Forall (λ v, isScalar v = true) winner →
  mergeElements winner loser = winner ++ drop (length winner) loser.
Proof.
  intros Hw. unfold mergeElements. f_equal.
  apply list_eq. intros i. rewrite list_lookup_imap.
  destruct (winner !! i) as [w|] eqn:Hi; [|done]. simpl. f_equal.
  eapply Forall_lookup_1 in Hw; [|done]. by destruct w.
Qed.

Lemma drop_winner_twice {A} (cs ps : list A) :
  drop (length cs) (ps ++ drop (length ps) cs) = drop (length cs) ps.
Proof.
  destruct (decide (length cs ≤ length ps)%nat) as [Hle|Hgt].
  - rewrite (drop_ge cs) by done. by rewrite app_nil_r.
  - rewrite drop_app_ge by lia. rewrite drop_drop.
    rewrite !drop_ge; [done|lia|lia].
Qed.

(** *** The merge of the plugin *)

(** The copy saved on line 107 is the service itself, and the merge of line
    121 repeats the one of line 109. *)
Lemma mergeConfigurations_unfold service parentConfiguration :
  mergeConfigurations service parentConfiguration =
    let merged := Lodash.merge service parentConfiguration in
    match readOverwriteServiceConfig merged with
    | None => (Throw TypeError, merged)
    | Some true => (Ok tt, merged)
    | Some false => (Ok tt, Lodash.merge merged (VObj false service))
    end.
Proof.
  unfold mergeConfigurations. rewrite merge_copy, merge_idem. simpl.
  by destruct (readOverwriteServiceConfig _) as [[]|].
Qed.

Lemma lookupPath_baseMerge path : ∀ object source s,
  isScalar s = true →
  lookupPath source path = Some s →
  lookupPath (Lodash.baseMerge object source) path = Some s.
Proof.
  induction path as [|k rest IH]; intros object source s Hs; [done|].
  destruct rest as [|k' rest].
  - simpl. intros Hk. rewrite lookup_baseMerge, Hk. by destruct s.
  - cbn [lookupPath]. destruct (source !! k) as [[| | | | |a m]|] eqn:Hk; try done.
    intros Hrest. rewrite lookup_baseMerge, Hk.
    destruct (mergeValue_shape a m (object !! k)) as (a' & base & ->).
    by apply IH.
Qed.



(** ** [path.join] on the paths of the search *)

Section ancestor_paths.
Import NodePath.

Lemma ancestorDir_SS n :
  ancestorDir (S (S n))
  = String "." (String "." (String "/" (ancestorDir (S n)))).
Proof. reflexivity. Qed.

Lemma append_cons c s t : String c s +:+ t = String c (s +:+ t).
Proof. reflexivity. Qed.

Lemma ancestorDir_length n :
  String.length (ancestorDir (S n)) = (3 * n + 2)%nat.
Proof.
  induction n as [|n IH]; [done|].
  rewrite ancestorDir_SS. cbn [String.length]. rewrite IH. lia.
Qed.

Lemma ancestorDir_nonempty n : String.eqb (ancestorDir (S n)) "" = false.
Proof. by destruct n. Qed.

Lemma ancestorDir_append_nonempty n s :
  String.eqb (ancestorDir (S n) +:+ s) "" = false.
Proof. by destruct n. Qed.

Lemma split_ancestorDir n x :
  split (ancestorDir (S n) +:+ String "/" x)
  = replicate (S n) ".." ++ split x.
Proof.
  induction n as [|n IH]; [done|].
  rewrite ancestorDir_SS, !append_cons. cbn -[ancestorDir String.append].
  by rewrite IH.
Qed.

Lemma normalizeSegments_dotdots i : ∀ j rest,
  normalizeSegments true (replicate j "..") (replicate i ".." ++ rest)
  = normalizeSegments true (replicate (i + j) "..") rest.
Proof.
  induction i as [|i IH]; intros j rest; [done|].
  destruct j as [|j].
  - change (normalizeSegments true (replicate 0 "..")
              (replicate (S i) ".." ++ rest))
      with (normalizeSegments true (replicate 1 "..")
              (replicate i ".." ++ rest)).
    rewrite IH. by replace (S i + 0)%nat with (i + 1)%nat by lia.
  - change (normalizeSegments true (replicate (S j) "..")
              (replicate (S i) ".." ++ rest))
      with (normalizeSegments true (replicate (S (S j)) "..")
              (replicate i ".." ++ rest)).
    rewrite IH. by replace (S i + S j)%nat with (i + S (S j))%nat by lia.
Qed.

Lemma rev_replicate {A} n (x : A) : rev (replicate n x) = replicate n x.
Proof.
  induction n as [|n IH]; [done|]. simpl. rewrite IH.
  clear IH. induction n; [done|]. simpl. by f_equal.
Qed.

Lemma joinSegments_dotdots n :
  joinSegments (replicate (S n) "..") = ancestorDir (S n).
Proof.
  induction n as [|n IH]; [done|].
  rewrite ancestorDir_SS, <- IH. reflexivity.
Qed.

Lemma joinSegments_dotdots_file n f :
  joinSegments (replicate (S n) ".." ++ [f])
  = ancestorDir (S n) +:+ String "/" f.
Proof.
  induction n as [|n IH]; [done|].
  rewrite ancestorDir_SS, 3!append_cons, <- IH. reflexivity.
Qed.

Lemma startsWithSlash_ancestorDir n s :
  startsWithSlash (ancestorDir (S n) +:+ s) = false.
Proof. by destruct n. Qed.

Lemma endsWithSlash_cons c s :
  s ≠ "" → endsWithSlash (String c s) = endsWithSlash s.
Proof. by destruct s. Qed.

Lemma endsWithSlash_append t s :
  s ≠ "" → endsWithSlash (t +:+ s) = endsWithSlash s.
Proof.
  intros Hs. induction t as [|c t IH]; [done|].
  rewrite append_cons, endsWithSlash_cons; [done|].
  by destruct t, s.
Qed.

(** One step up: [path.join(relativePath, "..")]. *)
Lemma join_ancestorDir_up n :
  join (ancestorDir (S n)) ".." = ancestorDir (S (S n)).
Proof.
  unfold join. rewrite ancestorDir_nonempty. cbn [String.eqb].
  unfold normalize. rewrite ancestorDir_append_nonempty.
  rewrite startsWithSlash_ancestorDir, endsWithSlash_append by done.
  change ("/" +:+ ?x) with (String "/" x).
  rewrite split_ancestorDir. cbn [negb].
  rewrite (normalizeSegments_dotdots (S n) 0).
  change (normalizeSegments true (replicate (S n + 0) "..") (split ".."))
    with (rev (".." :: replicate (S n + 0) "..")).
  change (".." :: replicate (S n + 0) "..")
    with (replicate (S (S n + 0)) "..").
  rewrite rev_replicate, joinSegments_dotdots.
  replace (S n + 0)%nat with (S n) by lia.
  by rewrite ancestorDir_nonempty.
Qed.

(** The file probed in a directory. *)
Lemma join_ancestorDir_file n :
  join (ancestorDir (S n)) "serverless.yml"
  = ancestorDir (S n) +:+ "/serverless.yml".
Proof.
  unfold join. rewrite ancestorDir_nonempty. cbn [String.eqb].
  unfold normalize. rewrite ancestorDir_append_nonempty.
  rewrite startsWithSlash_ancestorDir, endsWithSlash_append by done.
  change ("/" +:+ ?x) with (String "/" x).
  rewrite split_ancestorDir. cbn [negb].
  rewrite (normalizeSegments_dotdots (S n) 0).
  change (normalizeSegments true (replicate (S n + 0) "..")
            (split "serverless.yml"))
    with (rev ("serverless.yml" :: replicate (S n + 0) "..")).
  cbn [rev]. rewrite rev_replicate.
  replace (S n + 0)%nat with (S n) by lia.
  rewrite joinSegments_dotdots_file.
  by rewrite ancestorDir_append_nonempty.
Qed.
End ancestor_paths.

(** ** The search loop *)

Section search_loop.
Context (H : Host) (limit : option Z).

Lemma lengthBelow_ancestorDir n b :
  lengthBelow (ancestorDir (S n)) (Some b) = true
  ↔ (3 * Z.of_nat n + 2 < b)%Z.
Proof.
  unfold lengthBelow. rewrite ancestorDir_length, Z.ltb_lt. lia.
Qed.

(** The loop leaves within the iterations whose number the limit fixes. *)
Lemma climb_total : ∀ fuel n,
  (1 ≤ fuel)%nat →
  (default 0 limit - (3 * Z.of_nat n + 2) < Z.of_nat fuel)%Z →
  is_Some (climb H fuel limit (ancestorDir (S n))).
Proof.
  induction fuel as [|fuel IH]; intros n Hf Hl; [lia|].
  cbn [climb].
  destruct (existsSync H _); [by eexists|].
  destruct (String.eqb _ _); [by eexists|].
  destruct (lengthBelow _ _) eqn:Hb; [|by eexists].
  rewrite join_ancestorDir_up.
  destruct limit as [b|]; [|done].
  apply lengthBelow_ancestorDir in Hb. simpl in Hl.
  destruct (IH (S n)) as [[r t] ->]; [lia|simpl; lia|by eexists].
Qed.

Lemma climbFuel_enough :
  is_Some (climb H (climbFuel limit) limit (ancestorDir 1)).
Proof.
  apply (climb_total _ 0%nat); unfold climbFuel; [lia|].
  destruct limit as [b|]; simpl; lia.
Qed.

(** Where the loop goes: it leaves at some ancestor, having passed the
    length test at every ancestor below it, and probes nothing else. *)
Lemma climb_probes : ∀ fuel n r t,
  climb H fuel limit (ancestorDir (S n)) = Some (r, t) →
  ∃ n', (n ≤ n')%nat ∧ r = ancestorDir (S n')
    ∧ (∀ j, (n ≤ j < n')%nat →
         lengthBelow (ancestorDir (S j)) limit = true)
    ∧ (∀ e, e ∈ t →
         ∃ j, (n ≤ j ≤ n')%nat ∧ e ∈ probesOf (ancestorDir (S j)))
    ∧ ExistsSync (NodePath.join (ancestorDir (S n)) "serverless.yml") ∈ t.
Proof.
  induction fuel as [|fuel IH]; intros n r t; [done|].
  cbn [climb].
  assert (Hhere : ∀ t', t' ⊆ probesOf (ancestorDir (S n)) →
    ∀ e, e ∈ t' →
      ∃ j, (n ≤ j ≤ n)%nat ∧ e ∈ probesOf (ancestorDir (S j))).
  { intros t' Ht' e He. exists n. split; [lia|]. by apply Ht'. }
  assert (Hstop : ∀ t', t' ⊆ probesOf (ancestorDir (S n)) →
    ExistsSync (NodePath.join (ancestorDir (S n)) "serverless.yml") ∈ t' →
    Some (ancestorDir (S n), t') = Some (r, t) →
    ∃ n', (n ≤ n')%nat ∧ r = ancestorDir (S n')
      ∧ (∀ j, (n ≤ j < n')%nat →
           lengthBelow (ancestorDir (S j)) limit = true)
      ∧ (∀ e, e ∈ t →
           ∃ j, (n ≤ j ≤ n')%nat ∧ e ∈ probesOf (ancestorDir (S j)))
      ∧ ExistsSync (NodePath.join (ancestorDir (S n)) "serverless.yml") ∈ t).
  { intros t' Ht' Hin Heq. simplify_eq. exists n.
    split_and!; [lia|done|lia|by apply Hhere|done]. }
  destruct (existsSync H _).
  { apply Hstop; unfold probesOf; set_solver. }
  destruct (String.eqb _ _).
  { apply Hstop; unfold probesOf; set_solver. }
  destruct (lengthBelow _ _) eqn:Hb.
  2:{ apply Hstop; unfold probesOf; set_solver. }
  rewrite join_ancestorDir_up.
  destruct (climb H fuel limit (ancestorDir (S (S n))))
    as [[r' t']|] eqn:Hc; [|done].
  intros Heq. simplify_eq.
  destruct (IH _ _ _ Hc) as (n' & Hn' & -> & Hlen & Hev & _).
  exists n'. split_and!; [lia|done| | |set_solver].
  - intros j Hj. destruct (decide (j = n)) as [->|]; [done|].
    apply Hlen. lia.
  - intros e He. rewrite !elem_of_cons in He. destruct He as [->| [->|He]].
    + exists n. split; [lia|]. unfold probesOf. set_solver.
    + exists n. split; [lia|]. unfold probesOf. set_solver.
    + destruct (Hev e He) as (j & Hj & Hej). exists j. split; [lia|done].
Qed.

(** The loop talks to [fs] only. *)
Lemma climb_no_populate : ∀ fuel rel r t,
  climb H fuel limit rel = Some (r, t) → PopulateService ∉ t.
Proof.
  induction fuel as [|fuel IH]; intros rel r t; [done|].
  cbn [climb].
  destruct (existsSync H _); [intros; simplify_eq; set_solver|].
  destruct (String.eqb _ _); [intros; simplify_eq; set_solver|].
  destruct (lengthBelow _ _); [|intros; simplify_eq; set_solver].
  destruct (climb H fuel limit _) as [[r' t']|] eqn:Hclimb; [|done].
  intros Heq. simplify_eq. apply IH in Hclimb. set_solver.
Qed.
End search_loop.

Lemma getParentConfigurationRelativePath_total H service :
  ∃ r t, getParentConfigurationRelativePath H service = Some (r, t).
Proof.
  unfold getParentConfigurationRelativePath.
  destruct (truthy _); [by eauto|].
  destruct (climbFuel_enough H (searchLimit H (maxLevelsToSearch service)))
    as [[r t] Hc].
  change ".." with (ancestorDir 1). rewrite Hc.
  destruct (existsSync H _); eauto.
Qed.

Lemma getParentConfigurationRelativePath_no_populate H service r t :
  getParentConfigurationRelativePath H service = Some (r, t) →
  PopulateService ∉ t.
Proof.
  unfold getParentConfigurationRelativePath.
  destruct (truthy _); [intros; simplify_eq; set_solver|].
  destruct (climb H _ _ _) as [[rel t']|] eqn:Hc; [|done].
  apply climb_no_populate in Hc.
  destruct (existsSync H _); intros; simplify_eq; set_solver.
Qed.

(** ** The scenarios of the specification *)

(** Child [{provider: {stage: "dev"}, custom: {parent:
    {overwriteServiceConfig: false}}}], parent [{provider: {stage: "prod",
    region: "us-east-1"}}]: the effective [provider] is [{stage: "dev",
    region: "us-east-1"}]. *)
Example scenario_child_wins :
  (mergeConfigurations
     (list_to_map
        [("provider", obj [("stage", VStr "dev")]);
         ("custom",
          obj [("parent", obj [("overwriteServiceConfig", VBool false)])])])
     (obj [("provider",
            obj [("stage", VStr "prod"); ("region", VStr "us-east-1")])])).2
    !! "provider"
  = Some (obj [("stage", VStr "dev"); ("region", VStr "us-east-1")]).
Proof. vm_compute. reflexivity. Qed.

(** Child [{custom: {parent: {path: "../shared"}}}], parent file
    [../shared/serverless.yml] holding [{provider: {runtime: "node"}}]: the
    effective document has [provider.runtime = "node"] and keeps
    [custom.parent.path]. *)
Example scenario_explicit_path :
  let host := {|
    existsSync := λ _, false;
    realpathSync := λ p, p;
    homedir := "/home/u";
    readFileSync := λ p,
      if isStr p "../shared/serverless.yml"
      then Some (obj [("provider", obj [("runtime", VStr "node")])])
      else None;
    hasPopulateService := true;
    yamlDump := λ _, "";
    toNumberOther := λ _, None |} in
  ∃ o,
    mergeParentConfigurationIntoService host
      (withParentOptions [("path", VStr "../shared")]) = Some o
    ∧ outResult o = Ok tt
    ∧ outTrace o
      = [ReadFileSync (VStr "../shared/serverless.yml"); PopulateService]
    ∧ lookupPath (outService o) ["provider"; "runtime"] = Some (VStr "node")
    ∧ lookupPath (outService o) ["custom"; "parent"; "path"]
      = Some (VStr "../shared").
Proof. eexists. split_and!; vm_compute; reflexivity. Qed.

(** No [custom.parent], no [serverless.yml] within three levels: the
    discovery error, and the child document as it was. *)
Example scenario_discovery_fails :
  ∃ t,
    mergeParentConfigurationIntoService host_deep_tree child_stage_dev
    = Some {| outResult := Throw DiscoveryError;
              outService := child_stage_dev;
              outTrace := t |}
    ∧ t = [ExistsSync "../serverless.yml"; RealpathSync "..";
           ExistsSync "../../serverless.yml"; RealpathSync "../..";
           ExistsSync "../../../serverless.yml"; RealpathSync "../../..";
           ExistsSync "../../../serverless.yml"].
Proof. eexists. split; vm_compute; reflexivity. Qed.

(** * Properties of the plugin *)

(** ** The direction flag *)




(** ** Sequences *)

(** C2, as stated, fails.  Child [{a: [1, 2, 3]}], parent [{a: [9]}], default
    direction (parent wins): the effective document holds [a: [9, 2, 3]], not
    the parent's [[9]]. *)
Lemma C2_losing_sequence_not_replaced :
  readOverwriteServiceConfig (Lodash.merge child_seq (VObj false parent_seq))
    = Some true
  ∧ (mergeConfigurations child_seq (VObj false parent_seq)).2 !! "a"
    = Some (arr [VNum 9; VNum 2; VNum 3])
  ∧ (mergeConfigurations child_seq (VObj false parent_seq)).2 !! "a"
    ≠ parent_seq !! "a".
Proof.
  split_and!; [vm_compute; reflexivity..|].
  intros Heq.
  apply (f_equal (λ o, (λ v, member v "1") <$> o)) in Heq.
  vm_compute in Heq. discriminate.
Qed.

(** C2, amended.  For a child and a parent document as the loader yields
    them, none of whose mappings has a key named [length] or [__proto__], and
    a key under which both hold a sequence: the effective document holds the
    two sequences combined position by position, not the winning sequence in
    full.  When the parent wins, each position of the parent's sequence holds
    the parent's element merged over the child's element there, and the
    positions past the end of the parent's sequence keep the child's
    elements.  When the child wins, that result is overlaid in the same way
    by the child's sequence: each position of the child's sequence holds the
    child's element merged over what the first pass left there.  For
    sequences of scalars both cases give the winning sequence followed by the
    losing sequence's elements beyond the winner's length. *)
Theorem C2_sequences_merged_by_index
    (service : gmap string value) (a : bool) (pm : gmap string value)
    (k : string) (cs ps : list value) (overwriteServiceConfig : bool) :
  loadedDocument (VObj false service) = true →
  loadedDocument (VObj a pm) = true →
  service !! k = Some (arr cs) →
  pm !! k = Some (arr ps) →
  readOverwriteServiceConfig (Lodash.merge service (VObj a pm))
    = Some overwriteServiceConfig →
  let winner := if overwriteServiceConfig then ps else cs in
  let loser := if overwriteServiceConfig then cs else ps in
  let merged :=
    if overwriteServiceConfig then mergeElements ps cs
    else mergeElements cs (mergeElements ps cs) in
  (mergeConfigurations service (VObj a pm)).2 !! k = Some (arr merged)
  ∧ (Forall (λ v, isScalar v = true) cs →
     Forall (λ v, isScalar v = true) ps →
     merged = winner ++ drop (length winner) loser).
Proof.
  intros _ _ Hc Hp Hflag. cbn zeta. split.
  - rewrite mergeConfigurations_unfold. cbn zeta. rewrite Hflag.
    assert (Hm : Lodash.merge service (VObj a pm) !! k
                 = Some (arr (mergeElements ps cs))).
    { rewrite merge_obj, lookup_baseMerge, Hp, Hc. by rewrite mergeValue_arr. }
    destruct overwriteServiceConfig; [done|].
    cbn [snd]. by rewrite merge_obj, lookup_baseMerge, Hc, Hm, mergeValue_arr.
  - intros Hcs Hps. destruct overwriteServiceConfig.
    + by apply mergeElements_scalars.
    + rewrite (mergeElements_scalars ps) by done.
      rewrite mergeElements_scalars by done.
      by rewrite drop_winner_twice.
Qed.

Lemma C2_sequences_merged_by_index_witness :
  (mergeConfigurations child_seq (VObj false parent_seq)).2 !! "a"
  = Some (arr (mergeElements [VNum 9] [VNum 1; VNum 2; VNum 3])).
Proof.
  refine (proj1 (C2_sequences_merged_by_index child_seq false parent_seq "a"
            [VNum 1; VNum 2; VNum 3] [VNum 9] true _ _ _ _ _));
    vm_compute; reflexivity.
Defined.

(** ** The second pass *)

(** C3, as stated, fails.  The child defines [a: [1]] and disables the
    override; the parent holds [a: [7, 8, 9]].  The second pass does use the
    child as it was before the first merge, yet the key [a] ends with
    [[1, 8, 9]], not with the child's [[1]]. *)
Lemma C3_child_sequence_not_restored :
  readOverwriteServiceConfig (Lodash.merge child_keeps_seq parent_long_seq)
    = Some false
  ∧ child_keeps_seq !! "a" = Some (arr [VNum 1])
  ∧ (mergeConfigurations child_keeps_seq parent_long_seq).2 !! "a"
    = Some (arr [VNum 1; VNum 8; VNum 9])
  ∧ (mergeConfigurations child_keeps_seq parent_long_seq).2 !! "a"
    ≠ child_keeps_seq !! "a".
Proof.
  split_and!; [vm_compute; reflexivity..|].
  intros Heq.
  apply (f_equal (λ o, (λ v, member v "1") <$> o)) in Heq.
  vm_compute in Heq. discriminate.
Qed.

(** C3, amended.  For a child and a parent document as the loader yields
    them, none of whose mappings has a key named [length] or [__proto__]:
    when the flag read by the plugin is [false], the second pass merges the
    child as it was before the first merge over the result of the first, so
    every key under which the original child holds a scalar (at every nesting
    depth, the positions of sequences counting as keys) ends with the child's
    original value.  A key under which the child holds a mapping or a
    sequence ends with a merged container. *)
Theorem C3_child_scalars_survive
    (service : gmap string value) (parentConfiguration : value) :
  loadedDocument (VObj false service) = true →
  loadedDocument parentConfiguration = true →
  readOverwriteServiceConfig (Lodash.merge service parentConfiguration)
    = Some false →
  mergeConfigurations service parentConfiguration
    = (Ok tt, Lodash.merge (Lodash.merge service parentConfiguration)
                (VObj false service))
  ∧ ∀ path s,
      isScalar s = true →
      lookupPath service path = Some s →
      lookupPath (mergeConfigurations service parentConfiguration).2 path
        = Some s.
Proof.
  intros _ _ Hflag. rewrite mergeConfigurations_unfold. cbn zeta.
  rewrite Hflag.
  split; [done|]. intros path s Hs Hpath.
  cbn [snd]. rewrite merge_obj. by apply lookupPath_baseMerge.
Qed.

Lemma C3_child_scalars_survive_witness :
  lookupPath (mergeConfigurations child_keeps_seq parent_long_seq).2 ["a"; "0"]
  = Some (VNum 1).
Proof.
  apply (proj2 (C3_child_scalars_survive child_keeps_seq parent_long_seq
                  ltac:(vm_compute; reflexivity)
                  ltac:(vm_compute; reflexivity)
                  ltac:(vm_compute; reflexivity)));
    vm_compute; reflexivity.
Defined.

(** ** Discovery *)

(** C4.  With [maxLevels] set to a positive integer [N] and no explicit
    path, discovery returns, and every probe it made of the file system is a
    probe of one of the first [N] ancestor directories; the immediate parent
    directory is among them, for [N = 1] too.  When a file is found it is in
    one of those directories; otherwise the discovery error is thrown. *)
Theorem C4_discovery_probes_at_most_maxLevels
    (H : Host) (service : gmap string value) (N : Z) :
  truthy (parentOption service "path") = false →
  parentOption service "maxLevels" = VNum N →
  (1 ≤ N)%Z →
  ∃ r t,
    getParentConfigurationRelativePath H service = Some (r, t)
    ∧ (∀ e, e ∈ t →
         ∃ k, (1 ≤ k ≤ Z.to_nat N)%nat ∧ e ∈ probesOf (ancestorDir k))
    ∧ ExistsSync "../serverless.yml" ∈ t
    ∧ (r = Throw DiscoveryError
       ∨ ∃ k, (1 ≤ k ≤ Z.to_nat N)%nat
           ∧ r = Ok (VStr (NodePath.join (ancestorDir k) "serverless.yml"))).
Proof.
  intros Hpath HN Hpos.
  unfold getParentConfigurationRelativePath, maxLevelsToSearch.
  rewrite Hpath, HN.
  assert (js_or (VNum N) (VNum 3) = VNum N) as ->.
  { unfold js_or. simpl. destruct (Z.eqb_spec N 0); [lia|done]. }
  change (searchLimit H (VNum N)) with (Some ((N - 1) * 3)%Z).
  set (limit := Some ((N - 1) * 3)%Z).
  destruct (climbFuel_enough H limit) as [[rel t] Hc].
  change ".." with (ancestorDir 1). rewrite Hc.
  destruct (climb_probes H limit _ 0%nat rel t Hc)
    as (n' & _ & -> & Hlen & Hev & Hfirst).
  assert (Hn' : (S n' ≤ Z.to_nat N)%nat).
  { destruct n' as [|n']; [lia|].
    specialize (Hlen n' ltac:(lia)).
    apply lengthBelow_ancestorDir in Hlen. lia. }
  set (file := NodePath.join (ancestorDir (S n')) "serverless.yml").
  assert (Hall : ∀ e, e ∈ t ++ [ExistsSync file] →
            ∃ k, (1 ≤ k ≤ Z.to_nat N)%nat ∧ e ∈ probesOf (ancestorDir k)).
  { intros e [He| ->%list_elem_of_singleton]%elem_of_app.
    - destruct (Hev e He) as (j & Hj & Hej). exists (S j). split; [lia|done].
    - exists (S n'). split; [lia|]. unfold probesOf. set_solver. }
  assert (Hparent : ExistsSync "../serverless.yml" ∈ t ++ [ExistsSync file]).
  { apply elem_of_app. by left. }
  destruct (existsSync H file).
  - eexists _, _. split_and!; [done|done|done|].
    right. exists (S n'). split; [lia|done].
  - eexists _, _. split_and!; [done|done|done|]. by left.
Qed.

Lemma C4_discovery_probes_at_most_maxLevels_witness :
  ∃ r t,
    getParentConfigurationRelativePath host_deep_tree
      (withParentOptions [("maxLevels", VNum 1)]) = Some (r, t)
    ∧ (∀ e, e ∈ t →
         ∃ k, (1 ≤ k ≤ Z.to_nat 1)%nat ∧ e ∈ probesOf (ancestorDir k))
    ∧ ExistsSync "../serverless.yml" ∈ t
    ∧ (r = Throw DiscoveryError
       ∨ ∃ k, (1 ≤ k ≤ Z.to_nat 1)%nat
           ∧ r = Ok (VStr (NodePath.join (ancestorDir k) "serverless.yml"))).
Proof.
  apply (C4_discovery_probes_at_most_maxLevels host_deep_tree
           (withParentOptions [("maxLevels", VNum 1)]) 1);
    [vm_compute; reflexivity..|lia].
Defined.

(** C5: the code at [maxLevels: 12].  In a tree fourteen directories deep
    that holds no [serverless.yml], away from the home directory, the search
    climbs to the twelfth ancestor: nothing caps it at ten. *)
Lemma C5_maxLevels_12_ascends_12_levels :
  ∃ t,
    getParentConfigurationRelativePath host_deep_tree
      (withParentOptions [("maxLevels", VNum 12)])
    = Some (Throw DiscoveryError, t)
    ∧ RealpathSync (ancestorDir 12) ∈ t
    ∧ realpathSync host_deep_tree (ancestorDir 12) = "/srv/l1/l2"
    ∧ ExistsSync "../../../../../../../../../../../../serverless.yml" ∈ t.
Proof.
  eexists. split; [vm_compute; reflexivity|].
  split_and!; [|vm_compute; reflexivity|]; set_solver.
Qed.

(** C6, as stated, fails.  The explicit path ["../shared.yml.d"] does not end
    with [".yml"], yet it is returned as it is, without the file name: the
    test is whether [".yml"] occurs anywhere in the path. *)
Lemma C6_path_containing_yml_returned_verbatim :
  endsWith "../shared.yml.d" ".yml" = false
  ∧ getParentConfigurationRelativePath host_deep_tree
      (withParentOptions [("path", VStr "../shared.yml.d")])
    = Some (Ok (VStr "../shared.yml.d"), [])
  ∧ explicitPath_endsWith "../shared.yml.d" = "../shared.yml.d/serverless.yml".
Proof. split_and!; vm_compute; reflexivity. Qed.

(** C6, amended.  Whenever [custom.parent.path] is set to a non-empty string,
    the locator returns that path verbatim if [".yml"] occurs anywhere in it,
    and [path.join(path, "serverless.yml")] (the joined path, normalized)
    otherwise; it makes no call on the file system: no existence check, no
    discovery. *)
Theorem C6_explicit_path_no_probe
    (H : Host) (service : gmap string value) (a1 a2 : bool)
    (custom parent : gmap string value) (p : string) :
  service !! "custom" = Some (VObj a1 custom) →
  custom !! "parent" = Some (VObj a2 parent) →
  parent !! "path" = Some (VStr p) →
  p ≠ "" →
  getParentConfigurationRelativePath H service
  = Some (Ok (VStr (match String.index 0 ".yml" p with
                    | Some _ => p
                    | None => NodePath.join p "serverless.yml"
                    end)), []).
Proof.
  intros Hc Hp Hpath Hne.
  unfold getParentConfigurationRelativePath, parentOption, field.
  rewrite Hc. simpl. unfold field. rewrite Hp. simpl.
  unfold field. rewrite Hpath. simpl.
  destruct (String.eqb_spec p ""); [done|]. simpl.
  unfold explicitPath. simpl. by destruct (String.index 0 ".yml" p).
Qed.

Lemma C6_explicit_path_no_probe_witness :
  getParentConfigurationRelativePath host_deep_tree
    (withParentOptions [("path", VStr "../shared")])
  = Some (Ok (VStr "../shared/serverless.yml"), []).
Proof.
  refine (C6_explicit_path_no_probe host_deep_tree
            (withParentOptions [("path", VStr "../shared")]) false false
            (list_to_map [("parent", obj [("path", VStr "../shared")])])
            (list_to_map [("path", VStr "../shared")]) "../shared" _ _ _ _);
    [vm_compute; reflexivity..|discriminate].
Defined.

(** C7: the code with a home directory that is a symbolic link.  Here
    [/home/u], the home directory the system reports, is a link to
    [/data/u], and the service lives in [/data/u/svc].  The first candidate
    [".."] has the canonical path of the home directory, but line 165
    compares it with the unresolved [os.homedir()]; the two differ, and the
    search goes on to [/data] and to [/]. *)
Lemma C7_search_climbs_past_symlinked_home :
  realpathSync host_symlinked_home ".."
    = realpathSync host_symlinked_home (homedir host_symlinked_home)
  ∧ getParentConfigurationRelativePath host_symlinked_home ∅
    = Some (Throw DiscoveryError,
            [ExistsSync "../serverless.yml"; RealpathSync "..";
             ExistsSync "../../serverless.yml"; RealpathSync "../..";
             ExistsSync "../../../serverless.yml"; RealpathSync "../../..";
             ExistsSync "../../../serverless.yml"])
  ∧ realpathSync host_symlinked_home "../.." = "/data".
Proof. split_and!; vm_compute; reflexivity. Qed.

(** ** Failure *)

(** C8: the code on a parent document with an empty [custom:] section.
    Discovery and the loader succeed; line 109 merges the parent into the
    service; the guard of lines 113-114 tests [custom] against [undefined]
    only, so reading [custom.parent] of [null] throws a TypeError.  The call
    has failed, and the service document is neither the child as it was nor
    the finished merge of a successful call: [provider.stage] is the
    parent's. *)
Lemma C8_null_custom_fails_after_merging :
  ∃ o,
    mergeParentConfigurationIntoService
      (host_parent_two_up (VObj false parent_null_custom)) child_stage_dev
    = Some o
    ∧ outResult o = Throw TypeError
    ∧ outTrace o
      = [ExistsSync "../serverless.yml"; RealpathSync "..";
         ExistsSync "../../serverless.yml"; ExistsSync "../../serverless.yml";
         ReadFileSync (VStr "../../serverless.yml")]
    ∧ lookupPath child_stage_dev ["provider"; "stage"] = Some (VStr "dev")
    ∧ lookupPath (outService o) ["provider"; "stage"] = Some (VStr "prod")
    ∧ outService o !! "custom" = Some VNull.
Proof. eexists. split_and!; vm_compute; reflexivity. Qed.

(** ** Printing the effective configuration *)

Lemma section_test v :
  truthy v && (0 <? objectKeysLength v) = true ↔ hasEntries v.
Proof.
  destruct v as [| | | |s|a m]; simpl;
    rewrite ?andb_true_r, ?andb_false_r; try (split; [done|by intros []]).
  - destruct s; simpl; naive_solver.
  - rewrite Nat.ltb_lt. rewrite <- map_size_non_empty_iff. lia.
Qed.

Lemma effectiveServiceConfig_keys_sublist service (l : list string) :
  (omap (λ fieldName,
     let fieldValue := field service fieldName in
     if truthy fieldValue && (0 <? objectKeysLength fieldValue)
     then Some (fieldName, fieldValue) else None) l).*1 `sublist_of` l.
Proof.
  induction l as [|k l IH]; [done|]. cbn [omap list_omap]. cbn zeta.
  destruct (truthy _ && _); simpl; by constructor.
Qed.

(** C9.  What is printed is the dump of [effectiveServiceConfig]; its keys
    are among [custom], [functions], [package], [provider], [resources],
    [service], in that order; a section is in it, with the value the service
    holds, exactly when it is one of those six and has entries; so a section
    that is absent, [undefined], [null], an empty string, an empty mapping or
    an empty sequence is left out. *)
Theorem C9_print_effective_whitelist
    (H : Host) (service : gmap string value) :
  printEffectiveConfig H service
  = [CliLog ("Effective serverless.yml:" +:+ newline
             +:+ yamlDump H (effectiveServiceConfig service))]
  ∧ (effectiveServiceConfig service).*1 `sublist_of`
      ["custom"; "functions"; "package"; "provider"; "resources"; "service"]
  ∧ (∀ k v,
       (k, v) ∈ effectiveServiceConfig service
       ↔ k ∈ ["custom"; "functions"; "package"; "provider"; "resources";
              "service"]
         ∧ service !! k = Some v ∧ hasEntries v)
  ∧ (∀ k,
       service !! k = None ∨ service !! k = Some VUndef
       ∨ service !! k = Some VNull ∨ service !! k = Some (VStr "")
       ∨ (∃ a, service !! k = Some (VObj a ∅)) →
       k ∉ (effectiveServiceConfig service).*1).
Proof.
  assert (Hiff : ∀ k v,
    (k, v) ∈ effectiveServiceConfig service
    ↔ k ∈ fieldsToOutput ∧ service !! k = Some v ∧ hasEntries v).
  { intros k v. unfold effectiveServiceConfig. rewrite list_elem_of_omap.
    split.
    - intros (k' & Hk' & Hf). cbn zeta in Hf.
      destruct (truthy _ && _) eqn:Htest; [|done]. simplify_eq.
      apply section_test in Htest. split_and!; [done| |done].
      unfold field in *. by destruct (service !! k) as [v|].
    - intros (Hk & Hv & He). exists k. split; [done|]. cbn zeta.
      unfold field. rewrite Hv. simpl.
      apply section_test in He. by rewrite He. }
  split_and!; [done| |done|].
  - apply effectiveServiceConfig_keys_sublist.
  - intros k Hk [[k' v] [Heq Hin]]%list_elem_of_fmap. simpl in Heq. subst k'.
    apply Hiff in Hin as (_ & Hv & He).
    destruct Hk as [Hk|[Hk|[Hk|[Hk|[a Hk]]]]]; simplify_eq; simpl in He; done.
Qed.

Lemma C9_print_effective_whitelist_witness :
  "custom" ∉ (effectiveServiceConfig
                (list_to_map [("custom", obj []); ("service", VStr "svc")])).*1.
Proof.
  refine (proj2 (proj2 (proj2 (C9_print_effective_whitelist host_deep_tree
            (list_to_map [("custom", obj []); ("service", VStr "svc")]))))
            "custom" _).
  do 4 right. exists false. vm_compute. reflexivity.
Defined.

(** ** Merging the parent twice *)

(** C10.  Merging the same parent document into the service a second time
    changes nothing: the merge of line 121 leaves the document that the merge
    of line 109 produced. *)
Theorem C10_second_parent_merge_is_noop
    (service : gmap string value) (parentConfiguration : value) :
  Lodash.merge (Lodash.merge service parentConfiguration) parentConfiguration
  = Lodash.merge service parentConfiguration.
Proof. apply merge_idem. Qed.

(** * Further properties *)

(** ** More facts about [_.merge] *)

Lemma mergeValue_self v : Lodash.mergeValue v (Some v) = v.
Proof.
  induction v as [| | | | |a m IH] using value_ind'; try done.
  rewrite mergeValue_obj.
  assert (Lodash.baseMerge m m = m) as Hm.
  { apply map_eq. intros k. rewrite lookup_baseMerge.
    destruct (m !! k) as [sv|] eqn:Hk; [|done]. f_equal. by apply (IH k). }
  destruct a; by rewrite Hm.
Qed.

Lemma baseMerge_self m : Lodash.baseMerge m m = m.
Proof.
  apply map_eq. intros k. rewrite lookup_baseMerge.
  destruct (m !! k) as [sv|]; [|done]. f_equal. apply mergeValue_self.
Qed.

Lemma dom_baseMerge (object source : gmap string value) :
  dom (Lodash.baseMerge object source) = dom object ∪ dom source.
Proof.
  apply set_eq. intros k.
  rewrite elem_of_union, !elem_of_dom, lookup_baseMerge.
  destruct (source !! k), (object !! k); unfold is_Some; naive_solver.
Qed.

(** Something merged over anything has at least the entries it brought. *)
Lemma baseMerge_nonempty (base m : gmap string value) :
  m ≠ ∅ → Lodash.baseMerge base m ≠ ∅.
Proof.
  intros Hm Hempty. apply Hm. apply map_empty. intros k.
  apply (f_equal (λ x : gmap string value, x !! k)) in Hempty.
  rewrite lookup_baseMerge, lookup_empty in Hempty.
  by destruct (m !! k).
Qed.

Lemma elem_of_effectiveServiceConfig service k v :
  (k, v) ∈ effectiveServiceConfig service
  ↔ k ∈ fieldsToOutput ∧ service !! k = Some v ∧ hasEntries v.
Proof.
  unfold effectiveServiceConfig. rewrite list_elem_of_omap. split.
  - intros (k' & Hk' & Hf). cbn zeta in Hf.
    destruct (truthy _ && _) eqn:Htest; [|done]. simplify_eq.
    apply section_test in Htest. split_and!; [done| |done].
    unfold field in *. by destruct (service !! k) as [v|].
  - intros (Hk & Hv & He). exists k. split; [done|]. cbn zeta.
    unfold field. rewrite Hv. simpl.
    apply section_test in He. by rewrite He.
Qed.

(** ** The merge: keys, unions, and what is left alone *)

(** X1.  No key is lost and none is invented: for a child and a parent
    document as the loader yields them, none of whose mappings has a key
    named [length] or [__proto__], the service document left behind has
    exactly the top-level keys of the child and of the parent, whatever the
    direction, and even when the flag cannot be read. *)
Theorem X1_effective_keys_are_the_union
    (service : gmap string value) (a : bool) (pm : gmap string value) :
  loadedDocument (VObj false service) = true →
  loadedDocument (VObj a pm) = true →
  dom (mergeConfigurations service (VObj a pm)).2 = dom service ∪ dom pm.
Proof.
  intros _ _. rewrite mergeConfigurations_unfold. cbn zeta. rewrite !merge_obj.
  destruct (readOverwriteServiceConfig _) as [[]|]; cbn [snd];
    rewrite ?dom_baseMerge; set_solver.
Qed.

Lemma X1_effective_keys_are_the_union_witness :
  dom (mergeConfigurations child_keeps_seq (VObj false parent_provider_prod)).2
  = dom child_keeps_seq ∪ dom parent_provider_prod.
Proof.
  apply (X1_effective_keys_are_the_union child_keeps_seq false
           parent_provider_prod); vm_compute; reflexivity.
Defined.

(** X2.  For a child and a parent document as the loader yields them, none
    of whose mappings has a key named [length] or [__proto__], a top-level
    key that only one of the two defines is carried over with its value
    unchanged, whatever the direction. *)
Theorem X2_one_sided_keys_are_carried_over
    (service : gmap string value) (a : bool) (pm : gmap string value)
    (k : string) (v : value) :
  loadedDocument (VObj false service) = true →
  loadedDocument (VObj a pm) = true →
  (service !! k = Some v ∧ pm !! k = None)
  ∨ (pm !! k = Some v ∧ service !! k = None) →
  (mergeConfigurations service (VObj a pm)).2 !! k = Some v.
Proof.
  intros _ _ Hk. rewrite mergeConfigurations_unfold. cbn zeta.
  rewrite !merge_obj.
  assert (Hm : Lodash.baseMerge service pm !! k = Some v).
  { rewrite lookup_baseMerge.
    destruct Hk as [[Hs Hp]|[Hp Hs]]; rewrite Hp, ?Hs; [done|].
    by rewrite mergeValue_None. }
  destruct (readOverwriteServiceConfig _) as [[]|]; cbn [snd]; try done.
  rewrite lookup_baseMerge, Hm.
  destruct Hk as [[Hs Hp]|[Hp Hs]]; rewrite Hs; [|done].
  by rewrite mergeValue_self.
Qed.

Lemma X2_one_sided_keys_are_carried_over_witness :
  (mergeConfigurations child_keeps_seq (VObj false parent_provider_prod)).2
    !! "provider"
  = Some (obj [("stage", VStr "prod"); ("region", VStr "us-east-1")]).
Proof.
  apply (X2_one_sided_keys_are_carried_over child_keeps_seq false
           parent_provider_prod "provider");
    [vm_compute; reflexivity..|].
  right. split; vm_compute; reflexivity.
Defined.

(** X3.  For a child and a parent document as the loader yields them, none
    of whose mappings has a key named [length] or [__proto__]: in the
    default direction (the flag read by the plugin is not [false]) every key
    under which the parent document holds a scalar, at every nesting depth,
    ends with the parent's value. *)
Theorem X3_parent_scalars_win_by_default
    (service : gmap string value) (a : bool) (pm : gmap string value)
    (path : list string) (s : value) :
  loadedDocument (VObj false service) = true →
  loadedDocument (VObj a pm) = true →
  readOverwriteServiceConfig (Lodash.merge service (VObj a pm)) = Some true →
  isScalar s = true →
  lookupPath pm path = Some s →
  lookupPath (mergeConfigurations service (VObj a pm)).2 path = Some s.
Proof.
  intros _ _ Hflag Hs Hpath. rewrite mergeConfigurations_unfold. cbn zeta.
  rewrite Hflag. cbn [snd]. rewrite merge_obj. by apply lookupPath_baseMerge.
Qed.

Lemma X3_parent_scalars_win_by_default_witness :
  lookupPath (mergeConfigurations child_stage_dev
                (VObj false parent_provider_prod)).2 ["provider"; "stage"]
  = Some (VStr "prod").
Proof.
  apply (X3_parent_scalars_win_by_default child_stage_dev false
           parent_provider_prod ["provider"; "stage"] (VStr "prod"));
    vm_compute; reflexivity.
Defined.

(** X4.  Merging a document with itself as parent leaves it as it is. *)
Theorem X4_merge_with_itself
    (service : gmap string value) :
  (mergeConfigurations service (VObj false service)).2 = service.
Proof.
  rewrite mergeConfigurations_unfold. cbn zeta. rewrite !merge_obj.
  rewrite baseMerge_self.
  destruct (readOverwriteServiceConfig _) as [[]|]; cbn [snd];
    by rewrite ?merge_obj, ?baseMerge_self.
Qed.

(** X5.  A parent file that does not hold a mapping (an empty file, which
    loads as [undefined], a [null], a number, a boolean, an empty string)
    changes nothing in the service document. *)
Theorem X5_keyless_parent_changes_nothing
    (service : gmap string value) (parentConfiguration : value) :
  match parentConfiguration with
  | VObj _ _ => False
  | VStr s => s = ""
  | _ => True
  end →
  (mergeConfigurations service parentConfiguration).2 = service.
Proof.
  intros Hp. rewrite mergeConfigurations_unfold. cbn zeta.
  assert (Lodash.merge service parentConfiguration = service) as ->.
  { unfold Lodash.merge.
    destruct parentConfiguration as [| |[]|n|s|]; try done.
    - by destruct (truthy _).
    - by subst s. }
  destruct (readOverwriteServiceConfig _) as [[]|]; cbn [snd]; try done.
  rewrite merge_obj. apply baseMerge_self.
Qed.

Lemma X5_keyless_parent_changes_nothing_witness :
  (mergeConfigurations child_keeps_seq VUndef).2 = child_keeps_seq.
Proof. by apply (X5_keyless_parent_changes_nothing child_keeps_seq VUndef). Defined.



(** X7.  Printing after a merge in the default direction, for a child and a
    parent document as the loader yields them, none of whose mappings has a
    key named [length] or [__proto__]: every one of the six sections in which
    the parent document holds a mapping or a sequence with an entry is part
    of what is printed. *)
Theorem X7_parent_sections_are_printed
    (service : gmap string value) (a : bool) (pm : gmap string value)
    (k : string) (ak : bool) (m : gmap string value) :
  loadedDocument (VObj false service) = true →
  loadedDocument (VObj a pm) = true →
  readOverwriteServiceConfig (Lodash.merge service (VObj a pm)) = Some true →
  k ∈ fieldsToOutput →
  pm !! k = Some (VObj ak m) →
  m ≠ ∅ →
  k ∈ (effectiveServiceConfig
         (mergeConfigurations service (VObj a pm)).2).*1.
Proof.
  intros _ _ Hflag Hk Hpm Hm. rewrite mergeConfigurations_unfold. cbn zeta.
  rewrite Hflag. cbn [snd]. rewrite merge_obj.
  destruct (mergeValue_shape ak m (service !! k)) as (a' & base & Hshape).
  apply list_elem_of_fmap. exists (k, VObj a' (Lodash.baseMerge base m)).
  split; [done|]. apply elem_of_effectiveServiceConfig.
  split_and!; [done| |].
  - by rewrite lookup_baseMerge, Hpm, Hshape.
  - simpl. by apply baseMerge_nonempty.
Qed.

Lemma X7_parent_sections_are_printed_witness :
  "provider" ∈ (effectiveServiceConfig
                  (mergeConfigurations ∅ (VObj false parent_provider_prod)).2).*1.
Proof.
  refine (X7_parent_sections_are_printed ∅ false parent_provider_prod
            "provider" false
            (list_to_map [("stage", VStr "prod"); ("region", VStr "us-east-1")])
            _ _ _ _ _ _).
  - vm_compute; reflexivity.
  - vm_compute; reflexivity.
  - vm_compute; reflexivity.
  - unfold fieldsToOutput. set_solver.
  - vm_compute; reflexivity.
  - intros Heq.
    apply (f_equal (λ x : gmap string value, x !! "stage")) in Heq.
    vm_compute in Heq. discriminate.
Defined.

(** ** Discovery: what is returned, and how far the search goes *)

Section search_loop_passed.
Context (H : Host) (limit : option Z).

(** The loop moves on from a directory only after finding no file there, a
    canonical path other than the reported home, and a path still short of
    the limit. *)
Lemma climb_passed : ∀ fuel n r t,
  climb H fuel limit (ancestorDir (S n)) = Some (r, t) →
  ∃ n', (n ≤ n')%nat ∧ r = ancestorDir (S n')
    ∧ (∀ j, (n ≤ j < n')%nat →
         existsSync H (NodePath.join (ancestorDir (S j)) "serverless.yml")
           = false
         ∧ realpathSync H (ancestorDir (S j)) ≠ homedir H
         ∧ lengthBelow (ancestorDir (S j)) limit = true)
    ∧ (∀ e, e ∈ t →
         ∃ j, (n ≤ j ≤ n')%nat ∧ e ∈ probesOf (ancestorDir (S j)))
    ∧ ExistsSync (NodePath.join (ancestorDir (S n)) "serverless.yml") ∈ t.
Proof.
  induction fuel as [|fuel IH]; intros n r t; [done|].
  cbn [climb].
  assert (Hstop : ∀ t', t' ⊆ probesOf (ancestorDir (S n)) →
    ExistsSync (NodePath.join (ancestorDir (S n)) "serverless.yml") ∈ t' →
    Some (ancestorDir (S n), t') = Some (r, t) →
    ∃ n', (n ≤ n')%nat ∧ r = ancestorDir (S n')
      ∧ (∀ j, (n ≤ j < n')%nat →
           existsSync H (NodePath.join (ancestorDir (S j)) "serverless.yml")
             = false
           ∧ realpathSync H (ancestorDir (S j)) ≠ homedir H
           ∧ lengthBelow (ancestorDir (S j)) limit = true)
      ∧ (∀ e, e ∈ t →
           ∃ j, (n ≤ j ≤ n')%nat ∧ e ∈ probesOf (ancestorDir (S j)))
      ∧ ExistsSync (NodePath.join (ancestorDir (S n)) "serverless.yml") ∈ t).
  { intros t' Ht' Hin Heq. simplify_eq. exists n.
    split_and!; [lia|done|lia| |done].
    intros e He. exists n. split; [lia|]. by apply Ht'. }
  destruct (existsSync H _) eqn:Hex.
  { apply Hstop; unfold probesOf; set_solver. }
  destruct (String.eqb _ _) eqn:Hhome.
  { apply Hstop; unfold probesOf; set_solver. }
  apply String.eqb_neq in Hhome.
  destruct (lengthBelow _ _) eqn:Hb.
  2:{ apply Hstop; unfold probesOf; set_solver. }
  rewrite join_ancestorDir_up.
  destruct (climb H fuel limit (ancestorDir (S (S n))))
    as [[r' t']|] eqn:Hc; [|done].
  intros Heq. simplify_eq.
  destruct (IH _ _ _ Hc) as (n' & Hn' & -> & Hpassed & Hev & _).
  exists n'. split_and!; [lia|done| | |set_solver].
  - intros j Hj. destruct (decide (j = n)) as [->|]; [done|].
    apply Hpassed. lia.
  - intros e He. rewrite !elem_of_cons in He. destruct He as [->| [->|He]].
    + exists n. split; [lia|]. unfold probesOf. set_solver.
    + exists n. split; [lia|]. unfold probesOf. set_solver.
    + destruct (Hev e He) as (j & Hj & Hej). exists j. split; [lia|done].
Qed.
End search_loop_passed.

(** The shape of every discovery: it ends at some ancestor, whose file
    decides the outcome, after passing every ancestor below it. *)
Lemma discovery_shape H service :
  truthy (parentOption service "path") = false →
  ∃ n' t',
    getParentConfigurationRelativePath H service
    = Some (if existsSync H
                 (NodePath.join (ancestorDir (S n')) "serverless.yml")
            then Ok (VStr (NodePath.join (ancestorDir (S n'))
                             "serverless.yml"))
            else Throw DiscoveryError,
            t' ++ [ExistsSync
                     (NodePath.join (ancestorDir (S n')) "serverless.yml")])
    ∧ (∀ j, (j < n')%nat →
         existsSync H (NodePath.join (ancestorDir (S j)) "serverless.yml")
           = false
         ∧ realpathSync H (ancestorDir (S j)) ≠ homedir H
         ∧ lengthBelow (ancestorDir (S j))
             (searchLimit H (maxLevelsToSearch service)) = true)
    ∧ (∀ e, e ∈ t' →
         ∃ j, (j ≤ n')%nat ∧ e ∈ probesOf (ancestorDir (S j)))
    ∧ ExistsSync "../serverless.yml" ∈ t'.
Proof.
  intros Hpath. unfold getParentConfigurationRelativePath. rewrite Hpath.
  set (limit := searchLimit H (maxLevelsToSearch service)).
  destruct (climbFuel_enough H limit) as [[rel t'] Hc].
  change ".." with (ancestorDir 1). rewrite Hc.
  destruct (climb_passed H limit _ 0%nat rel t' Hc)
    as (n' & _ & -> & Hpassed & Hev & Hfirst).
  exists n', t'. split_and!.
  - by destruct (existsSync H _).
  - intros j Hj. apply Hpassed. lia.
  - intros e He. destruct (Hev e He) as (j & Hj & Hej).
    exists j. split; [lia|done].
  - done.
Qed.

Lemma probesOf_ExistsSync d p :
  ExistsSync p ∈ probesOf d → p = NodePath.join d "serverless.yml".
Proof. unfold probesOf. set_solver. Qed.

(** X8.  What discovery returns is the [serverless.yml] of the nearest
    ancestor directory that has one: the returned path exists, and no
    directory below it holds the file. *)
Theorem X8_discovery_returns_nearest_parent
    (H : Host) (service : gmap string value) (file : value) (t : list event) :
  truthy (parentOption service "path") = false →
  getParentConfigurationRelativePath H service = Some (Ok file, t) →
  ∃ k, (1 ≤ k)%nat
    ∧ file = VStr (NodePath.join (ancestorDir k) "serverless.yml")
    ∧ existsSync H (NodePath.join (ancestorDir k) "serverless.yml") = true
    ∧ ∀ j, (1 ≤ j < k)%nat →
        existsSync H (NodePath.join (ancestorDir j) "serverless.yml") = false.
Proof.
  intros Hpath Hres.
  destruct (discovery_shape H service Hpath)
    as (n' & t' & Heq & Hpassed & _ & _).
  rewrite Heq in Hres.
  destruct (existsSync H _) eqn:Hex; [|by simplify_eq].
  exists (S n'). split_and!; [lia|by simplify_eq|done|].
  intros [|j] Hj; [lia|]. apply Hpassed. lia.
Qed.

Lemma X8_discovery_returns_nearest_parent_witness :
  ∃ k, (1 ≤ k)%nat
    ∧ VStr "../../serverless.yml"
      = VStr (NodePath.join (ancestorDir k) "serverless.yml")
    ∧ existsSync (host_parent_two_up VNull)
        (NodePath.join (ancestorDir k) "serverless.yml") = true
    ∧ ∀ j, (1 ≤ j < k)%nat →
        existsSync (host_parent_two_up VNull)
          (NodePath.join (ancestorDir j) "serverless.yml") = false.
Proof.
  refine (X8_discovery_returns_nearest_parent (host_parent_two_up VNull) ∅
            (VStr "../../serverless.yml") _ _ _); vm_compute; reflexivity.
Defined.

(** X9.  Auto-discovery ends in the discovery error only after probing the
    immediate parent directory and finding [serverless.yml] in none of the
    directories it probed. *)
Theorem X9_discovery_error_means_nothing_found
    (H : Host) (service : gmap string value) (t : list event) :
  truthy (parentOption service "path") = false →
  getParentConfigurationRelativePath H service
    = Some (Throw DiscoveryError, t) →
  ExistsSync "../serverless.yml" ∈ t
  ∧ ∀ p, ExistsSync p ∈ t → existsSync H p = false.
Proof.
  intros Hpath Hres.
  destruct (discovery_shape H service Hpath)
    as (n' & t' & Heq & Hpassed & Hev & Hfirst).
  rewrite Heq in Hres.
  destruct (existsSync H _) eqn:Hex; [by simplify_eq|]. simplify_eq.
  split.
  - apply elem_of_app. by left.
  - intros p [Hp| [= ->]%list_elem_of_singleton]%elem_of_app; [|done].
    destruct (Hev _ Hp) as (j & Hj & Hpj).
    apply probesOf_ExistsSync in Hpj as ->.
    destruct (decide (j = n')) as [->|]; [done|]. apply Hpassed. lia.
Qed.

Lemma X9_discovery_error_means_nothing_found_witness :
  ExistsSync "../serverless.yml"
    ∈ [ExistsSync "../serverless.yml"; RealpathSync "..";
       ExistsSync "../serverless.yml"]
  ∧ ∀ p, ExistsSync p
           ∈ [ExistsSync "../serverless.yml"; RealpathSync "..";
              ExistsSync "../serverless.yml"] →
         existsSync host_service_below_home p = false.
Proof.
  refine (X9_discovery_error_means_nothing_found host_service_below_home ∅
            _ _ _); vm_compute; reflexivity.
Defined.

(** X10.  When [maxLevels] is unset, or set to a falsy value ([0], [null],
    [false], the empty string), the search is the search for [maxLevels: 3]:
    same outcome, same probes in the same order.  In particular it returns,
    and probes the first three ancestor directories at most. *)
Theorem X10_maxLevels_defaults_to_three
    (H : Host) (service : gmap string value) :
  truthy (parentOption service "path") = false →
  truthy (parentOption service "maxLevels") = false →
  getParentConfigurationRelativePath H service
  = getParentConfigurationRelativePath H
      (withParentOptions [("maxLevels", VNum 3)])
  ∧ ∃ r t,
      getParentConfigurationRelativePath H service = Some (r, t)
      ∧ ∀ e, e ∈ t →
          ∃ k, (1 ≤ k ≤ 3)%nat ∧ e ∈ probesOf (ancestorDir k).
Proof.
  intros Hpath Hmax.
  assert (maxLevelsToSearch service = VNum 3) as Hthree.
  { unfold maxLevelsToSearch, js_or. by rewrite Hmax. }
  split.
  { unfold getParentConfigurationRelativePath. rewrite Hpath, Hthree.
    assert (truthy (parentOption (withParentOptions [("maxLevels", VNum 3)])
                      "path") = false) as -> by (vm_compute; reflexivity).
    assert (maxLevelsToSearch (withParentOptions [("maxLevels", VNum 3)])
            = VNum 3) as -> by (vm_compute; reflexivity).
    done. }
  destruct (discovery_shape H service Hpath)
    as (n' & t' & Heq & Hpassed & Hev & Hfirst).
  assert (searchLimit H (maxLevelsToSearch service) = Some 6%Z) as Hlimit
    by (by rewrite Hthree).
  assert (n' ≤ 2)%nat as Hn'.
  { destruct n' as [|n']; [lia|].
    destruct (Hpassed n' ltac:(lia)) as (_ & _ & Hlen).
    rewrite Hlimit in Hlen. apply lengthBelow_ancestorDir in Hlen. lia. }
  eexists _, _. split; [done|].
  intros e [He| ->%list_elem_of_singleton]%elem_of_app.
  - destruct (Hev e He) as (j & Hj & Hej). exists (S j). split; [lia|done].
  - exists (S n'). split; [lia|]. unfold probesOf. set_solver.
Qed.

Lemma X10_maxLevels_defaults_to_three_witness :
  getParentConfigurationRelativePath host_deep_tree
    (withParentOptions [("maxLevels", VNum 0)])
  = getParentConfigurationRelativePath host_deep_tree
      (withParentOptions [("maxLevels", VNum 3)])
  ∧ ∃ r t,
      getParentConfigurationRelativePath host_deep_tree
        (withParentOptions [("maxLevels", VNum 0)]) = Some (r, t)
      ∧ ∀ e, e ∈ t →
          ∃ k, (1 ≤ k ≤ 3)%nat ∧ e ∈ probesOf (ancestorDir k).
Proof.
  apply (X10_maxLevels_defaults_to_three host_deep_tree
           (withParentOptions [("maxLevels", VNum 0)]));
    vm_compute; reflexivity.
Defined.

(** X11.  A negative [maxLevels] does not disable the search: the immediate
    parent directory is still probed, and nothing above it. *)
Theorem X11_negative_maxLevels_probes_parent_only
    (H : Host) (service : gmap string value) (N : Z) :
  truthy (parentOption service "path") = false →
  parentOption service "maxLevels" = VNum N →
  (N < 0)%Z →
  ∃ r t,
    getParentConfigurationRelativePath H service = Some (r, t)
    ∧ ExistsSync "../serverless.yml" ∈ t
    ∧ ∀ e, e ∈ t → e ∈ probesOf "..".
Proof.
  intros Hpath Hmax HN.
  destruct (discovery_shape H service Hpath)
    as (n' & t' & Heq & Hpassed & Hev & Hfirst).
  assert (searchLimit H (maxLevelsToSearch service) = Some ((N - 1) * 3)%Z)
    as Hlimit.
  { unfold maxLevelsToSearch, js_or. rewrite Hmax. simpl.
    destruct (Z.eqb_spec N 0); [lia|done]. }
  assert (n' = 0)%nat as ->.
  { destruct n' as [|n']; [done|].
    destruct (Hpassed n' ltac:(lia)) as (_ & _ & Hlen).
    rewrite Hlimit in Hlen. apply lengthBelow_ancestorDir in Hlen. lia. }
  eexists _, _. split; [done|]. split.
  - apply elem_of_app. by left.
  - intros e [He| ->%list_elem_of_singleton]%elem_of_app.
    + destruct (Hev e He) as (j & Hj & Hej).
      by replace j with 0%nat in Hej by lia.
    + unfold probesOf. set_solver.
Qed.

Lemma X11_negative_maxLevels_probes_parent_only_witness :
  ∃ r t,
    getParentConfigurationRelativePath host_deep_tree
      (withParentOptions [("maxLevels", VNum (-2))]) = Some (r, t)
    ∧ ExistsSync "../serverless.yml" ∈ t
    ∧ ∀ e, e ∈ t → e ∈ probesOf "..".
Proof.
  apply (X11_negative_maxLevels_probes_parent_only host_deep_tree
           (withParentOptions [("maxLevels", VNum (-2))]) (-2));
    [vm_compute; reflexivity..|lia].
Defined.

(** X12.  When the [k]-th ancestor directory is the home directory as the
    system reports it, the search probes nothing above that ancestor,
    whatever [maxLevels] says. *)
Theorem X12_reported_home_bounds_the_search
    (H : Host) (service : gmap string value) (k : nat)
    (r : result value) (t : list event) :
  truthy (parentOption service "path") = false →
  (1 ≤ k)%nat →
  realpathSync H (ancestorDir k) = homedir H →
  getParentConfigurationRelativePath H service = Some (r, t) →
  ∀ e, e ∈ t → ∃ j, (1 ≤ j ≤ k)%nat ∧ e ∈ probesOf (ancestorDir j).
Proof.
  intros Hpath Hk Hhome Hres.
  destruct (discovery_shape H service Hpath)
    as (n' & t' & Heq & Hpassed & Hev & Hfirst).
  rewrite Heq in Hres.
  assert (S n' ≤ k)%nat as Hn'.
  { destruct (decide (S n' ≤ k)%nat) as [|Hgt]; [done|].
    destruct k as [|k]; [lia|].
    destruct (Hpassed k ltac:(lia)) as (_ & Hne & _). done. }
  assert (t = t' ++ [ExistsSync
            (NodePath.join (ancestorDir (S n')) "serverless.yml")]) as ->
    by (by simplify_eq).
  intros e [He| ->%list_elem_of_singleton]%elem_of_app.
  - destruct (Hev e He) as (j & Hj & Hej). exists (S j). split; [lia|done].
  - exists (S n'). split; [lia|]. unfold probesOf. set_solver.
Qed.

Lemma X12_reported_home_bounds_the_search_witness :
  ∃ j, (1 ≤ j ≤ 1)%nat ∧ RealpathSync ".." ∈ probesOf (ancestorDir j).
Proof.
  refine (X12_reported_home_bounds_the_search host_service_below_home
            (withParentOptions [("maxLevels", VNum 8)]) 1
            (Throw DiscoveryError)
            [ExistsSync "../serverless.yml"; RealpathSync "..";
             ExistsSync "../serverless.yml"] _ _ _ _
            (RealpathSync "..") _);
    [vm_compute; reflexivity|lia|vm_compute; reflexivity..|].
  apply list_elem_of_lookup. exists 1%nat. reflexivity.
Defined.

(** ** The explicit path *)

Lemma explicit_path_located H service a1 a2 custom parent p :
  service !! "custom" = Some (VObj a1 custom) →
  custom !! "parent" = Some (VObj a2 parent) →
  parent !! "path" = Some p →
  truthy p = true →
  getParentConfigurationRelativePath H service = Some (explicitPath p, []).
Proof.
  intros Hc Hp Hpath Htruthy.
  unfold getParentConfigurationRelativePath, parentOption, field.
  rewrite Hc. simpl. unfold field. rewrite Hp. simpl.
  unfold field. rewrite Hpath. simpl. by rewrite Htruthy.
Qed.

(** X13.  An explicit path that is a number, [true] or a mapping makes the
    call throw a TypeError ([indexOf] is not a function) before anything is
    read or merged: no call on the file system or the loader, and the
    service document as it was. *)
Theorem X13_non_string_path_is_a_type_error
    (H : Host) (service : gmap string value) (a1 a2 : bool)
    (custom parent : gmap string value) (p : value) :
  service !! "custom" = Some (VObj a1 custom) →
  custom !! "parent" = Some (VObj a2 parent) →
  parent !! "path" = Some p →
  truthy p = true →
  match p with VStr _ | VObj true _ => False | _ => True end →
  mergeParentConfigurationIntoService H service
  = Some {| outResult := Throw TypeError;
            outService := service;
            outTrace := [] |}.
Proof.
  intros Hc Hp Hpath Htruthy Hkind.
  unfold mergeParentConfigurationIntoService.
  rewrite (explicit_path_located H service a1 a2 custom parent p) by done.
  by destruct p as [| |b|n|s|[] m].
Qed.

Lemma X13_non_string_path_is_a_type_error_witness :
  mergeParentConfigurationIntoService host_deep_tree
    (withParentOptions [("path", VNum 5)])
  = Some {| outResult := Throw TypeError;
            outService := withParentOptions [("path", VNum 5)];
            outTrace := [] |}.
Proof.
  refine (X13_non_string_path_is_a_type_error host_deep_tree
            (withParentOptions [("path", VNum 5)]) false false
            (list_to_map [("parent", obj [("path", VNum 5)])])
            (list_to_map [("path", VNum 5)]) (VNum 5) _ _ _ _ _);
    [vm_compute; reflexivity..|exact I].
Defined.

(** X14.  With an explicit, non-empty string path the call never fails with
    the discovery error and never touches [fs]: the only collaborator it
    calls before merging is the loader, once, on the located path; and when
    the loader throws, the call fails with the loader's error and the service
    document as it was. *)
Theorem X14_explicit_path_fails_in_the_loader_only
    (H : Host) (service : gmap string value) (a1 a2 : bool)
    (custom parent : gmap string value) (p : string) :
  service !! "custom" = Some (VObj a1 custom) →
  custom !! "parent" = Some (VObj a2 parent) →
  parent !! "path" = Some (VStr p) →
  p ≠ "" →
  let located :=
    VStr (match String.index 0 ".yml" p with
          | Some _ => p
          | None => NodePath.join p "serverless.yml"
          end) in
  ∃ o,
    mergeParentConfigurationIntoService H service = Some o
    ∧ outResult o ≠ Throw DiscoveryError
    ∧ (∃ rest, outTrace o = ReadFileSync located :: rest
               ∧ (rest = [] ∨ rest = [PopulateService]))
    ∧ (readFileSync H located = None →
       outResult o = Throw LoadError ∧ outService o = service).
Proof.
  intros Hc Hp Hpath Hne located.
  unfold mergeParentConfigurationIntoService.
  rewrite (explicit_path_located H service a1 a2 custom parent (VStr p));
    [|done..|by simpl; destruct (String.eqb_spec p "")].
  assert (explicitPath (VStr p) = Ok located) as ->.
  { unfold explicitPath, located. simpl.
    by destruct (String.index 0 ".yml" p). }
  destruct (readFileSync H located) as [parentConfiguration|].
  - rewrite mergeConfigurations_unfold. cbn zeta.
    destruct (readOverwriteServiceConfig _) as [[]|];
      eexists; (split; [done|]); simpl; split_and!; try done;
      destruct (hasPopulateService H); eauto.
  - eexists. split; [done|]. simpl. split_and!; eauto.
Qed.

Lemma X14_explicit_path_fails_in_the_loader_only_witness :
  ∃ o,
    mergeParentConfigurationIntoService host_deep_tree
      (withParentOptions [("path", VStr "../shared")]) = Some o
    ∧ outResult o ≠ Throw DiscoveryError
    ∧ (∃ rest,
         outTrace o = ReadFileSync (VStr "../shared/serverless.yml") :: rest
         ∧ (rest = [] ∨ rest = [PopulateService]))
    ∧ (readFileSync host_deep_tree (VStr "../shared/serverless.yml") = None →
       outResult o = Throw LoadError
       ∧ outService o = withParentOptions [("path", VStr "../shared")]).
Proof.
  refine (X14_explicit_path_fails_in_the_loader_only host_deep_tree
            (withParentOptions [("path", VStr "../shared")]) false false
            (list_to_map [("parent", obj [("path", VStr "../shared")])])
            (list_to_map [("path", VStr "../shared")]) "../shared" _ _ _ _);
    [vm_compute; reflexivity..|discriminate].
Defined.

(** ** Failure before the merge *)

(** X15.  The call always returns, and when it fails with the discovery error
    or with the loader's error the service document is the one it was given:
    nothing was merged, and the variables were not repopulated. *)
Theorem X15_discovery_or_load_failure_leaves_service
    (H : Host) (service : gmap string value) :
  (∃ o, mergeParentConfigurationIntoService H service = Some o)
  ∧ ∀ o,
      mergeParentConfigurationIntoService H service = Some o →
      outResult o = Throw DiscoveryError ∨ outResult o = Throw LoadError →
      outService o = service ∧ PopulateService ∉ outTrace o.
Proof.
  unfold mergeParentConfigurationIntoService.
  destruct (getParentConfigurationRelativePath_total H service)
    as (r & t & Hloc).
  rewrite Hloc.
  apply getParentConfigurationRelativePath_no_populate in Hloc.
  destruct r as [file|e].
  - destruct (readFileSync H file) as [parentConfiguration|].
    + rewrite mergeConfigurations_unfold. cbn zeta.
      destruct (readOverwriteServiceConfig _) as [[]|];
        (split; [by eexists|]); intros o Ho [Hr|Hr]; by simplify_eq/=.
    + split; [by eexists|]. intros o Ho _. simplify_eq/=.
      split; [done|]. set_solver.
  - split; [by eexists|]. intros o Ho _. by simplify_eq/=.
Qed.

Lemma X15_discovery_or_load_failure_leaves_service_witness :
  ∃ o,
    mergeParentConfigurationIntoService host_deep_tree child_stage_dev = Some o
    ∧ outResult o = Throw DiscoveryError
    ∧ outService o = child_stage_dev.
Proof.
  eexists. split; [vm_compute; reflexivity|]. split; [reflexivity|].
  refine (proj1 (proj2 (X15_discovery_or_load_failure_leaves_service
                          host_deep_tree child_stage_dev) _ _ _)).
  - vm_compute; reflexivity.
  - left. reflexivity.
Defined.
